(** * ResumeAnalyzer: section segmentation and field extraction

    A shallow embedding of [ResumeAnalyzer.py] and the properties of its
    segmenters and field extractors, of the text it reads from a file and
    of the parsing that [main] does before it renders.

    - Python [str] values are lists of Unicode code points.
    - The pieces of the Unicode database that the program reaches through
      [str.upper], [str.lower], [\d] and [\w] are a class [Unicode]; on
      ASCII input every function below computes without it.
    - [re] is embedded as a lexer, a parser and a backtracking matcher for
      the fragment of the pattern language the program's patterns use.
    - A Python call either returns or raises: the [outcome] monad. *)

From Stdlib Require Import String Ascii.
From stdpp Require Import gmap list.

Local Open Scope N_scope.

(** ** Strings *)

(** A character is its code point. *)
Abbreviation char := N (only parsing).
Abbreviation str := (list N) (only parsing).

(** [raw "..."] reads an ASCII literal the way Python reads [r"..."]. *)
Definition raw (s : string) : str :=
  (λ a, N_of_ascii a) <$> list_ascii_of_string s.

Fixpoint unescape (s : str) : str :=
  match s with
  | 92 :: 110 :: s' => 10 :: unescape s'
  | 92 :: 116 :: s' => 9 :: unescape s'
  | 92 :: 92 :: s' => 92 :: unescape s'
  | c :: s' => c :: unescape s'
  | [] => []
  end.

(** [esc "..."] reads a literal the way Python reads ["..."]: [\n], [\t]
    and a doubled backslash are escapes. *)
Definition esc (s : string) : str := unescape (raw s).

(** The bullet of [line.strip("•- ")], U+2022. *)
Definition bullet : char := 8226.

Definition between (lo hi c : char) : bool := (lo <=? c) && (c <=? hi).

Definition is_ascii (c : char) : bool := c <? 128.

(** [str.isspace] on one code point, the set [str.strip()] removes. *)
Definition is_space (c : char) : bool :=
  between 9 13 c || between 28 32 c || (c =? 133) || (c =? 160)
  || (c =? 5760) || between 8192 8202 c || (c =? 8232) || (c =? 8233)
  || (c =? 8239) || (c =? 8287) || (c =? 12288).

(** The line boundaries of [str.splitlines]. *)
Definition is_linebreak (c : char) : bool :=
  between 10 13 c || between 28 30 c || (c =? 133) || (c =? 8232)
  || (c =? 8233).

Definition ascii_letter (c : char) : bool := between 65 90 c || between 97 122 c.
Definition ascii_digit (c : char) : bool := between 48 57 c.

Definition ascii_upper (c : char) : char := if between 97 122 c then c - 32 else c.
Definition ascii_lower (c : char) : char := if between 65 90 c then c + 32 else c.

(** What the program uses of the Unicode character database outside ASCII. *)
Class Unicode := {
  uni_upper : char → str;
  uni_lower : str → str;
  uni_decimal : char → bool;
  uni_alnum : char → bool;
  uni_decimal_alnum : ∀ c, uni_decimal c = true → uni_alnum c = true
}.

(** The database in which no code point above 127 has case or class: a
    string with such code points is lower-cased in its ASCII letters. *)
Definition ascii_only : Unicode := {|
  uni_upper c := [c];
  uni_lower s := ascii_lower <$> s;
  uni_decimal _ := false;
  uni_alnum _ := false;
  uni_decimal_alnum := λ _ H, H
|}.

Section Strings.
Context {U : Unicode}.

Definition upper_char (c : char) : str :=
  if is_ascii c then [ascii_upper c] else uni_upper c.

(** [s.upper()] *)
Definition upper (s : str) : str := s ≫= upper_char.

(** [s.lower()] *)
Definition lower (s : str) : str :=
  if forallb is_ascii s then ascii_lower <$> s else uni_lower s.

(** [\d] *)
Definition is_digit (c : char) : bool :=
  if is_ascii c then ascii_digit c else uni_decimal c.

(** [\w] *)
Definition is_word (c : char) : bool :=
  if is_ascii c then ascii_letter c || ascii_digit c || (c =? 95)
  else uni_alnum c.

End Strings.

Fixpoint drop_while {A} (p : A → bool) (s : list A) : list A :=
  match s with
  | c :: s' => if p c then drop_while p s' else s
  | [] => []
  end.

Fixpoint take_while {A} (p : A → bool) (s : list A) : list A :=
  match s with
  | c :: s' => if p c then c :: take_while p s' else []
  | [] => []
  end.

Definition lstrip_by (p : char → bool) (s : str) : str := drop_while p s.
Definition rstrip_by (p : char → bool) (s : str) : str :=
  reverse (drop_while p (reverse s)).
Definition strip_by (p : char → bool) (s : str) : str :=
  rstrip_by p (lstrip_by p s).

Definition mem (chars : str) (c : char) : bool := existsb (N.eqb c) chars.

(** [s.strip()] *)
Definition strip (s : str) : str := strip_by is_space s.
(** [s.strip(chars)] *)
Definition strip_chars (chars : str) (s : str) : str := strip_by (mem chars) s.
(** [s.lstrip(chars)] *)
Definition lstrip_chars (chars : str) (s : str) : str := lstrip_by (mem chars) s.

(** [s.startswith(p)] *)
Fixpoint startswith (p s : str) : bool :=
  match p, s with
  | [], _ => true
  | a :: p', b :: s' => (a =? b) && startswith p' s'
  | _ :: _, [] => false
  end.

(** [needle in hay] *)
Fixpoint occurs (needle hay : str) : bool :=
  startswith needle hay ||
  match hay with
  | [] => false
  | _ :: hay' => occurs needle hay'
  end.

(** [hay.find(needle)], with [None] for Python's -1. *)
Fixpoint find (needle hay : str) : option nat :=
  if startswith needle hay then Some 0%nat
  else match hay with
       | [] => None
       | _ :: hay' => S <$> find needle hay'
       end.

(** [s.split(sep)] for a separator of one character. *)
Fixpoint split_on (sep : char) (s : str) : list str :=
  match s with
  | [] => [[]]
  | c :: s' =>
      if c =? sep then [] :: split_on sep s'
      else match split_on sep s' with
           | w :: ws => (c :: w) :: ws
           | [] => [[c]]
           end
  end.

(** [sep.join(l)] *)
Fixpoint join (sep : str) (l : list str) : str :=
  match l with
  | [] => []
  | [s] => s
  | s :: l' => s ++ sep ++ join sep l'
  end.

Fixpoint splitlines_from (line : str) (s : str) : list str :=
  match s with
  | [] => match line with [] => [] | _ => [reverse line] end
  | c :: s' =>
      if is_linebreak c then
        reverse line ::
          match s' with
          | d :: s'' =>
              if (c =? 13) && (d =? 10) then splitlines_from [] s''
              else splitlines_from [] s'
          | [] => []
          end
      else splitlines_from (c :: line) s'
  end.

(** [s.splitlines()] *)
Definition splitlines (s : str) : list str := splitlines_from [] s.

(** Truth value of a string: empty is false. *)
Definition nonempty (s : str) : bool := match s with [] => false | _ => true end.

(** ** Outcomes of a call *)

Inductive exn := re_error | AttributeError | KeyError | FileDataError.

(** [Unmodelled]: the call compiles a pattern that leaves the fragment of
    the pattern language embedded below; nothing is said about it. *)
Inductive outcome (A : Type) :=
  | Returns (a : A)
  | Raises (e : exn)
  | Unmodelled.
Arguments Returns {A} a.
Arguments Raises {A} e.
Arguments Unmodelled {A}.

#[global] Instance outcome_ret : MRet outcome := λ A, Returns.
#[global] Instance outcome_fmap : FMap outcome := λ A B f m,
  match m with
  | Returns a => Returns (f a)
  | Raises e => Raises e
  | Unmodelled => Unmodelled
  end.
#[global] Instance outcome_bind : MBind outcome := λ A B f m,
  match m with
  | Returns a => f a
  | Raises e => Raises e
  | Unmodelled => Unmodelled
  end.

(** ** The [re] module: patterns *)

Inductive citem :=
  | ILit (c : char)
  | IRange (lo hi : char)
  | IDigit
  | IWord.

Inductive cset :=
  | CAny
  | CLit (c : char)
  | CDigit
  | CWord
  | CIn (neg : bool) (items : list citem).

Inductive anchor := AtBeginning | AtEnd | AtBoundary.

Inductive regex :=
  | REmpty
  | RChar (cs : cset)
  | RAt (a : anchor)
  | RRep (greedy : bool) (lo : nat) (hi : option nat) (cs : cset)
  | RSub (g : option nat) (r : regex)
  | RLook (neg : bool) (r : regex)
  | RSeq (r1 r2 : regex)
  | RAlt (r1 r2 : regex).

Definition seq_of_list (rs : list regex) : regex := foldr RSeq REmpty rs.

Fixpoint alt_of_list (rs : list regex) : regex :=
  match rs with
  | [] => REmpty
  | [r] => r
  | r :: rs' => RAlt r (alt_of_list rs')
  end.

(** *** Lexer *)

Inductive gkind := GCapture | GNonCapture | GLookahead (neg : bool).

Inductive token :=
  | TAtom (cs : cset)
  | TAt (a : anchor)
  | TBar
  | TOpen (g : gkind)
  | TClose
  | TRepeat (lo : nat) (hi : option nat) (greedy : bool).

(** [SPECIAL_CHARS] of [sre_parse]. *)
Definition special_chars : str := raw ".\[{()*+?^$|".
Definition plain (c : char) : bool := negb (mem special_chars c).

(** An escape outside a character set. *)
Definition lex_escape (e : char) : outcome token :=
  if e =? 110 then Returns (TAtom (CLit 10))
  else if e =? 116 then Returns (TAtom (CLit 9))
  else if e =? 114 then Returns (TAtom (CLit 13))
  else if e =? 100 then Returns (TAtom CDigit)
  else if e =? 119 then Returns (TAtom CWord)
  else if e =? 98 then Returns (TAt AtBoundary)
  else if ascii_letter e || ascii_digit e then Unmodelled
  else Returns (TAtom (CLit e)).

(** An escape inside a character set. *)
Definition class_escape (e : char) : outcome citem :=
  if e =? 110 then Returns (ILit 10)
  else if e =? 116 then Returns (ILit 9)
  else if e =? 114 then Returns (ILit 13)
  else if e =? 100 then Returns IDigit
  else if e =? 119 then Returns IWord
  else if ascii_letter e || ascii_digit e then Unmodelled
  else Returns (ILit e).

(** The items of a set up to its closing bracket, and what follows it. *)
Fixpoint lex_class (fuel : nat) (acc : list citem) (s : str)
    : outcome (list citem * str) :=
  match fuel with
  | O => Unmodelled
  | S fuel =>
      match s with
      | [] => Raises re_error
      | c :: s1 =>
          if c =? 93 then
            match acc with
            | [] => Unmodelled
            | _ => Returns (reverse acc, s1)
            end
          else
            '(code1, s2) ←
              (if c =? 92 then
                 match s1 with
                 | [] => Raises re_error
                 | e :: s2 => it ← class_escape e; Returns (it, s2)
                 end
               else Returns (ILit c, s1));
            match s2 with
            | d :: s3 =>
                if d =? 45 then
                  match s3 with
                  | [] => Raises re_error
                  | that :: s4 =>
                      if that =? 93 then
                        Returns (reverse (ILit 45 :: code1 :: acc), s4)
                      else if that =? 92 then Unmodelled
                      else
                        match code1 with
                        | ILit lo =>
                            if that <? lo then Raises re_error
                            else lex_class fuel (IRange lo that :: acc) s4
                        | _ => Raises re_error
                        end
                  end
                else lex_class fuel (code1 :: acc) s2
            | [] => lex_class fuel (code1 :: acc) s2
            end
      end
  end.

(** The [?] that makes a quantifier lazy; a possessive [+] is not covered. *)
Definition lex_suffix (lo : nat) (hi : option nat) (s : str)
    : outcome (token * str) :=
  match s with
  | c :: s' =>
      if c =? 63 then Returns (TRepeat lo hi false, s')
      else if c =? 43 then Unmodelled
      else Returns (TRepeat lo hi true, s)
  | [] => Returns (TRepeat lo hi true, s)
  end.

(** [int(s)] for a string of ASCII digits. *)
Definition int_of (s : str) : nat :=
  foldl (λ n c, (10 * n + N.to_nat (c - 48))%nat) 0%nat s.

(** One token at the head of [c :: s], and what follows it. *)
Definition lex_one (c : char) (s : str) : outcome (token * str) :=
  if c =? 92 then
    match s with
    | [] => Raises re_error
    | e :: s' => t ← lex_escape e; Returns (t, s')
    end
  else if c =? 46 then Returns (TAtom CAny, s)
  else if c =? 94 then Returns (TAt AtBeginning, s)
  else if c =? 36 then Returns (TAt AtEnd, s)
  else if c =? 124 then Returns (TBar, s)
  else if c =? 41 then Returns (TClose, s)
  else if c =? 40 then
    match s with
    | q :: s' =>
        if q =? 63 then
          match s' with
          | k :: s'' =>
              if k =? 58 then Returns (TOpen GNonCapture, s'')
              else if k =? 61 then Returns (TOpen (GLookahead false), s'')
              else if k =? 33 then Returns (TOpen (GLookahead true), s'')
              else Unmodelled
          | [] => Unmodelled
          end
        else Returns (TOpen GCapture, s)
    | [] => Returns (TOpen GCapture, s)
    end
  else if c =? 42 then lex_suffix 0 None s
  else if c =? 43 then lex_suffix 1 None s
  else if c =? 63 then lex_suffix 0 (Some 1%nat) s
  else if c =? 123 then
    let ds := take_while ascii_digit s in
    match ds, drop (length ds) s with
    | _ :: _, b :: s' =>
        if (b =? 125) && (length ds <=? 3)%nat
        then lex_suffix (int_of ds) (Some (int_of ds)) s'
        else Unmodelled
    | _, _ => Unmodelled
    end
  else if c =? 91 then
    match s with
    | n :: s' =>
        if n =? 94 then
          '(items, rest) ← lex_class (S (length s')) [] s';
          Returns (TAtom (CIn true items), rest)
        else
          '(items, rest) ← lex_class (S (length s)) [] s;
          Returns (TAtom (CIn false items), rest)
    | [] => Raises re_error
    end
  else Returns (TAtom (CLit c), s).

Fixpoint lex (fuel : nat) (s : str) : outcome (list token) :=
  match s with
  | [] => Returns []
  | c :: s' =>
      match fuel with
      | O => Unmodelled
      | S fuel =>
          '(t, rest) ← lex_one c s';
          ts ← lex fuel rest;
          Returns (t :: ts)
      end
  end.

(** *** Parser *)

(** An open group: the alternatives already closed and the items of the
    alternative being read, both latest first. *)
Record frame := Frame { done : list regex; cur : list regex }.

Definition push (r : regex) (f : frame) : frame :=
  {| done := done f; cur := r :: cur f |}.

Definition close_frame (f : frame) : regex :=
  alt_of_list (reverse (seq_of_list (reverse (cur f)) :: done f)).

Definition wrap (g : gkind) (n : nat) (r : regex) : regex :=
  match g with
  | GCapture => RSub (Some n) r
  | GNonCapture => RSub None r
  | GLookahead neg => RLook neg r
  end.

(** [stack] holds, for each group still open, its kind, its number and
    the frame of the group around it; [n] is the next group number. *)
Fixpoint parse (ts : list token) (f : frame)
    (stack : list (gkind * nat * frame)) (n : nat) : outcome regex :=
  match ts with
  | [] =>
      match stack with
      | [] => Returns (close_frame f)
      | _ :: _ => Raises re_error
      end
  | TAtom cs :: ts' => parse ts' (push (RChar cs) f) stack n
  | TAt a :: ts' => parse ts' (push (RAt a) f) stack n
  | TBar :: ts' =>
      parse ts' {| done := seq_of_list (reverse (cur f)) :: done f; cur := [] |}
        stack n
  | TOpen g :: ts' =>
      match g with
      | GCapture => parse ts' (Frame [] []) ((g, n, f) :: stack) (S n)
      | _ => parse ts' (Frame [] []) ((g, n, f) :: stack) n
      end
  | TClose :: ts' =>
      match stack with
      | [] => Raises re_error
      | (g, i, outer) :: stack' =>
          parse ts' (push (wrap g i (close_frame f)) outer) stack' n
      end
  | TRepeat lo hi greedy :: ts' =>
      match cur f with
      | [] => Raises re_error
      | RChar cs :: items =>
          parse ts' {| done := done f; cur := RRep greedy lo hi cs :: items |}
            stack n
      | RAt _ :: _ => Raises re_error
      | RRep _ _ _ _ :: _ => Raises re_error
      | _ :: _ => Unmodelled
      end
  end.

(** [re.compile(pattern)] *)
Definition re_compile (pattern : str) : outcome regex :=
  ts ← lex (length pattern) pattern;
  parse ts (Frame [] []) [] 1%nat.

(** ** The [re] module: matching *)

Abbreviation groups := (gmap nat (list N)) (only parsing).

(** A match object: the text of group 0 and the numbered groups that took
    part in the match. *)
Record match_obj := Match { m_start : nat; m_text : str; m_groups : groups }.

(** [m.group(n)]; [None] is Python's [None]. *)
Definition group (m : match_obj) (n : nat) : option str :=
  match n with
  | O => Some (m_text m)
  | S _ => m_groups m !! n
  end.

(** What is left to match: called with the character before the cursor,
    the cursor, the text from the cursor on and the groups so far. *)
Definition cont := option char → nat → str → groups → option (nat * groups).

Definition orelse {A} (a : option A) (b : unit → option A) : option A :=
  match a with
  | Some x => Some x
  | None => b tt
  end.

Section Matching.
Context {U : Unicode}.
Variable dotall : bool.

Definition item_mem (it : citem) (c : char) : bool :=
  match it with
  | ILit d => c =? d
  | IRange lo hi => between lo hi c
  | IDigit => is_digit c
  | IWord => is_word c
  end.

Definition cset_mem (cs : cset) (c : char) : bool :=
  match cs with
  | CAny => dotall || negb (c =? 10)
  | CLit d => c =? d
  | CDigit => is_digit c
  | CWord => is_word c
  | CIn neg items => xorb neg (existsb (λ it, item_mem it c) items)
  end.

Definition word_at (c : option char) : bool :=
  match c with
  | Some c => is_word c
  | None => false
  end.

Definition at_holds (a : anchor) (prev : option char) (pos : nat) (rest : str)
    : bool :=
  match a with
  | AtBeginning => (pos =? 0)%nat
  | AtEnd => match rest with [] => true | [c] => c =? 10 | _ => false end
  | AtBoundary => xorb (word_at prev) (word_at (head rest))
  end.

(** A quantified character: greedy takes as many as it can first, lazy as
    few as it can. *)
Fixpoint rep_match (ok : char → bool) (greedy : bool) (lo : nat)
    (hi : option nat) (prev : option char) (pos : nat) (rest : str)
    (caps : groups) (k : cont) {struct rest} : option (nat * groups) :=
  let more (_ : unit) :=
    match hi with
    | Some O => None
    | _ =>
        match rest with
        | c :: rest' =>
            if ok c
            then rep_match ok greedy (pred lo) (pred <$> hi) (Some c) (S pos)
                   rest' caps k
            else None
        | [] => None
        end
    end in
  match lo with
  | S _ => more tt
  | O =>
      if greedy then orelse (more tt) (λ _, k prev pos rest caps)
      else orelse (k prev pos rest caps) more
  end.

Fixpoint rmatch (r : regex) (prev : option char) (pos : nat) (rest : str)
    (caps : groups) (k : cont) : option (nat * groups) :=
  match r with
  | REmpty => k prev pos rest caps
  | RChar cs =>
      match rest with
      | c :: rest' => if cset_mem cs c then k (Some c) (S pos) rest' caps else None
      | [] => None
      end
  | RAt a => if at_holds a prev pos rest then k prev pos rest caps else None
  | RRep greedy lo hi cs => rep_match (cset_mem cs) greedy lo hi prev pos rest caps k
  | RSub g r1 =>
      rmatch r1 prev pos rest caps (λ prev' pos' rest' caps',
        k prev' pos' rest'
          match g with
          | Some n => <[n := take (pos' - pos) rest]> caps'
          | None => caps'
          end)
  | RLook neg r1 =>
      match rmatch r1 prev pos rest caps (λ _ pos' _ caps', Some (pos', caps')) with
      | Some (_, caps') => if neg then None else k prev pos rest caps'
      | None => if neg then k prev pos rest caps else None
      end
  | RSeq r1 r2 =>
      rmatch r1 prev pos rest caps (λ prev' pos' rest' caps',
        rmatch r2 prev' pos' rest' caps' k)
  | RAlt r1 r2 =>
      orelse (rmatch r1 prev pos rest caps k)
        (λ _, rmatch r2 prev pos rest caps k)
  end.

Definition accept : cont := λ _ pos _ caps, Some (pos, caps).

(** A match that starts at the cursor. *)
Definition match_here (r : regex) (prev : option char) (pos : nat) (rest : str)
    : option match_obj :=
  match rmatch r prev pos rest ∅ accept with
  | Some (e, caps) => Some (Match pos (take (e - pos) rest) caps)
  | None => None
  end.

Fixpoint search_from (r : regex) (prev : option char) (pos : nat) (rest : str)
    : option match_obj :=
  orelse (match_here r prev pos rest)
    (λ _, match rest with
          | c :: rest' => search_from r (Some c) (S pos) rest'
          | [] => None
          end).

End Matching.

(** [re.search(pattern, text, flags)] and [re.match(pattern, text)], the
    flag being [re.DOTALL] or none. *)
Definition re_search `{Unicode} (pattern : str) (text : str) (dotall : bool)
    : outcome (option match_obj) :=
  r ← re_compile pattern; Returns (search_from dotall r None 0 text).

Definition re_match `{Unicode} (pattern : str) (text : str)
    : outcome (option match_obj) :=
  r ← re_compile pattern; Returns (match_here false r None 0 text).

(** ** The program *)

(** What [page.get_text("dict")] gives: pages of blocks of lines of spans.
    A block without the key ["lines"], a line without ["spans"] and a span
    without ["flags"] are [None]: the program reads them with [.get]. *)
Record span := Span { sp_text : str; sp_font : str; sp_flags : option Z }.
Record line := Line { ln_spans : option (list span) }.
Record block := Block { bk_lines : option (list line) }.
Definition page := list block.
Definition document := list page.

(** [x.attr] on a value that may be [None]. *)
Definition attr {A} (x : option A) : outcome A :=
  match x with
  | Some a => Returns a
  | None => Raises AttributeError
  end.

(** [d[k]] *)
Definition getitem {V} (d : gmap str V) (k : str) : outcome V :=
  match d !! k with
  | Some v => Returns v
  | None => Raises KeyError
  end.

Definition truthy {A} (m : option A) : bool :=
  match m with Some _ => true | None => false end.

Inductive bucket := btech | inter | tenth.

Section Program.
Context {U : Unicode}.

(** *** extract_bold_lines_from_section (lines 15-35) *)

(** ["bold" in span["font"].lower() or span.get("flags", 0) & 2] *)
Definition is_bold (sp : span) : bool :=
  occurs (raw "bold") (lower (sp_font sp))
  || negb (Z.land (default 0%Z (sp_flags sp)) 2 =? 0)%Z.

(** [section_name.upper() in text.upper()] *)
Definition hits_section (section_name text : str) : bool :=
  occurs (upper section_name) (upper text).

(** [any(stop in text.upper() for stop in stop_words)] *)
Definition hits_stop (stop_words : list str) (text : str) : bool :=
  existsb (λ stop, occurs stop (upper text)) stop_words.

(** The body of the innermost loop on the state [(bold_lines,
    inside_section)]; the first two branches are the two [continue]. *)
Definition span_step (section_name : str) (stop_words : list str)
    (st : list str * bool) (sp : span) : list str * bool :=
  let '(bold_lines, inside_section) := st in
  let text := strip (sp_text sp) in
  if negb (nonempty text) then st
  else if hits_section section_name text then (bold_lines, true)
  else
    let inside_section :=
      if hits_stop stop_words text then false else inside_section in
    if inside_section && is_bold sp
    then (bold_lines ++ [text], inside_section)
    else (bold_lines, inside_section).

(** The loops over the spans of a line, the lines of a block, the blocks
    of a page and the pages of the document. *)
Definition scan_line section_name stop_words (st : list str * bool) (ln : line) :=
  foldl (span_step section_name stop_words) st (default [] (ln_spans ln)).
Definition scan_block section_name stop_words (st : list str * bool) (bk : block) :=
  foldl (scan_line section_name stop_words) st (default [] (bk_lines bk)).
Definition scan_page section_name stop_words (st : list str * bool) (pg : page) :=
  foldl (scan_block section_name stop_words) st pg.
Definition scan_document section_name stop_words (doc : document) :=
  foldl (scan_page section_name stop_words) ([], false) doc.

(** [f"No bold lines found in {section_name.upper()}"] *)
Definition no_bold_lines (section_name : str) : str :=
  raw "No bold lines found in " ++ upper section_name.

Definition extract_bold_lines_from_section (doc : document)
    (section_name : str) (stop_words : list str) : list str :=
  let bold_lines := (scan_document section_name stop_words doc).1 in
  match bold_lines with
  | _ :: _ => bold_lines
  | [] => [no_bold_lines section_name]
  end.

(** *** extract_section (lines 38-41) *)

Definition not_found : str := raw "Not found".

(** The pattern: the heading and the joined stop headings are put into it
    upper-cased and as they are, without [re.escape]. *)
Definition section_pattern (section : str) (stop_sections : list str) : str :=
  upper section ++ raw "(.*?)(?=\n(?:"
  ++ upper (join (raw "|") stop_sections) ++ raw "|$))".

Definition extract_section (text section : str) (stop_sections : list str)
    : outcome str :=
  m ← re_search (section_pattern section stop_sections) text true;
  match m with
  | Some m => g ← attr (group m 1); Returns (strip g)
  | None => Returns not_found
  end.

(** *** Other utilities (lines 44-80) *)

(** The characters of [line.strip("•- ")]. *)
Definition bullets : str := bullet :: raw "- ".

(** [if line.strip()] *)
Definition nonblank (line : str) : bool := nonempty (strip line).

Definition extract_certificates (text : str) : outcome (list str) :=
  Returns (strip_chars bullets <$> List.filter nonblank (splitlines text)).

Definition extract_languages (text : str) : outcome (list str) :=
  m ← re_search (raw "LANGUAGES\n([A-Za-z, ]+)") text false;
  match m with
  | Some m => g ← attr (group m 1); Returns (split_on 44 (strip g))
  | None => Returns [not_found]
  end.

(** [[item.strip() for item in line.split(",") if item.strip()]] *)
Definition items_of (line : str) : list str :=
  strip <$> List.filter nonblank (split_on 44 line).

(** [for x in l: body], on the state the body updates. *)
Fixpoint for_each {S A} (body : S → A → outcome S) (st : S) (l : list A)
    : outcome S :=
  match l with
  | [] => Returns st
  | x :: l' => st' ← body st x; for_each body st' l'
  end.

(** The body of the loop on the state [(skills, current)]. *)
Definition skills_step (st : gmap str (list str) * option str) (line : str)
    : outcome (gmap str (list str) * option str) :=
  let '(skills, current) := st in
  let line := strip line in
  if negb (nonempty line) then Returns st
  else
    heading ←
      (if negb (occurs (raw ":") line)
       then m ← re_match (raw "^[A-Za-z ]+$") line; Returns (truthy m)
       else Returns false);
    if heading : bool then Returns (<[line := []]> skills, Some line)
    else
      match current with
      | Some cur =>
          if nonempty cur then
            old ← getitem skills cur;
            Returns (<[cur := old ++ items_of line]> skills, current)
          else Returns st
      | None => Returns st
      end.

Definition parse_skills (skills_text : str) : outcome (gmap str (list str)) :=
  st ← for_each skills_step (∅, None) (splitlines skills_text);
  Returns st.1.

Definition extract_email (text : str) : outcome str :=
  m ← re_search (raw "[\w\.-]+@[\w\.-]+") text false;
  match m with
  | Some m => attr (group m 0)
  | None => Returns not_found
  end.

Definition extract_phone (text : str) : outcome str :=
  m ← re_search (raw "\b\d{10}\b") text false;
  match m with
  | Some m => attr (group m 0)
  | None => Returns not_found
  end.

Definition extract_name (text : str) : outcome str :=
  m ← re_match (raw "^[A-Za-z ]+") text;
  match m with
  | Some m => g ← attr (group m 0); Returns (strip g)
  | None => Returns not_found
  end.

Definition extract_location (text : str) : outcome str :=
  m ← re_search (raw "\bRajahmundry.*") text false;
  match m with
  | Some m => g ← attr (group m 0); Returns (strip g)
  | None => Returns not_found
  end.

(** *** parse_education (lines 83-100) *)

(** The three lists and the one that [current_section] is an alias of:
    appending to [current_section] appends to that list. *)
Record edu_state := Edu {
  e_btech : list str; e_inter : list str; e_tenth : list str;
  e_current : option bucket
}.

(** The list a line switches [current_section] to, if any. *)
Definition trigger (line : str) : option bucket :=
  let l := lower line in
  if occurs (raw "bachelor") l || occurs (raw "b.tech") l
     || occurs (raw "engineering") l then Some btech
  else if occurs (raw "intermediate") l || occurs (raw "junior college") l
  then Some inter
  else if occurs (raw "secondary education") l || occurs (raw "high school") l
  then Some tenth
  else None.

Definition append_to (b : bucket) (line : str) (st : edu_state) : edu_state :=
  match b with
  | btech => Edu (e_btech st ++ [line]) (e_inter st) (e_tenth st) (e_current st)
  | inter => Edu (e_btech st) (e_inter st ++ [line]) (e_tenth st) (e_current st)
  | tenth => Edu (e_btech st) (e_inter st) (e_tenth st ++ [line]) (e_current st)
  end.

Definition edu_step (st : edu_state) (line : str) : edu_state :=
  let current_section :=
    match trigger line with
    | Some b => Some b
    | None => e_current st
    end in
  let st := Edu (e_btech st) (e_inter st) (e_tenth st) current_section in
  match current_section with
  | Some b => append_to b line st
  | None => st
  end.

(** [[line.strip("•- ") for line in edu_text.splitlines() if line.strip()]] *)
Definition edu_lines (edu_text : str) : list str :=
  strip_chars bullets <$> List.filter nonblank (splitlines edu_text).

Definition parse_education (edu_text : str)
    : outcome (list str * list str * list str) :=
  let st := foldl edu_step (Edu [] [] [] None) (edu_lines edu_text) in
  Returns (e_btech st, e_inter st, e_tenth st).

End Program.

(** ** The rest of the program *)

(** *** extract_text_from_pdf (lines 7-12) *)

(** A page of an opened file: what [page.get_text()] gives, and the
    blocks of [page.get_text("dict")]. *)
Record pdf_page := PdfPage { pg_text : str; pg_blocks : page }.

(** The bytes of an upload, as [fitz.open(stream=..., filetype="pdf")]
    takes them: it reads pages from them, or it cannot and raises
    PyMuPDF's [FileDataError]. *)
Inductive upload := Readable (pages : list pdf_page) | Unreadable.

Definition fitz_open (file_stream : upload) : outcome (list pdf_page) :=
  match file_stream with
  | Readable pages => Returns pages
  | Unreadable => Raises FileDataError
  end.

(** The document that [extract_bold_lines_from_section] walks in an opened
    file. *)
Definition blocks_of (doc : list pdf_page) : document := pg_blocks <$> doc.

(** The loop of [extract_text_from_pdf] over the pages of the opened
    file. *)
Definition extract_text_from_pdf (doc : list pdf_page) : str :=
  foldl (λ text pg, text ++ pg_text pg) [] doc.

(** *** main, from the uploaded file to the values it renders
    (lines 140-166) *)

Record parsed := Parsed {
  p_name : str; p_email : str; p_phone : str; p_location : str;
  p_profile : str;
  p_certificates : list str; p_languages : list str;
  p_skills : gmap str (list str);
  p_bold_projects : list str; p_bold_experience : list str;
  p_btech : list str; p_inter : list str; p_tenth : list str
}.

(** The same bytes are opened three times, after [file_stream.seek(0)]:
    once for the text and once for each list of bold lines. *)
Definition main `{Unicode} (file_stream : upload) : outcome parsed :=
  doc ← fitz_open file_stream;
  let raw_text := extract_text_from_pdf doc in
  name ← extract_name raw_text;
  email ← extract_email raw_text;
  phone ← extract_phone raw_text;
  location ← extract_location raw_text;
  profile ← extract_section raw_text (raw "PROFILE") [raw "EDUCATION"];
  education ← extract_section raw_text (raw "EDUCATION") [raw "EXPERIENCE"];
  skills_text ← extract_section raw_text (raw "SKILLS") [raw "PROJECTS"];
  cert_text ← extract_section raw_text (raw "CERTIFICATES") [raw "LANGUAGES"];
  certificates ← extract_certificates cert_text;
  languages ← extract_languages raw_text;
  skills ← parse_skills skills_text;
  doc ← fitz_open file_stream;
  let bold_projects :=
    extract_bold_lines_from_section (blocks_of doc) (raw "PROJECTS")
      [raw "CERTIFICATES"; raw "SKILLS"; raw "LANGUAGES"; raw "DECLARATION"] in
  doc ← fitz_open file_stream;
  let bold_experience :=
    extract_bold_lines_from_section (blocks_of doc) (raw "EXPERIENCE")
      [raw "SKILLS"; raw "PROJECTS"; raw "CERTIFICATES"; raw "LANGUAGES";
       raw "DECLARATION"] in
  '(btech_lines, inter_lines, tenth_lines) ← parse_education education;
  Returns (Parsed name email phone location profile certificates languages
             skills bold_projects bold_experience
             btech_lines inter_lines tenth_lines).

(** * Notions the properties are stated with *)

(** ** Cursors *)

(** The character before the cursor once [pre] has been passed. *)
Definition prev_of (prev : option char) (pre : str) : option char :=
  match last pre with
  | Some c => Some c
  | None => prev
  end.

(** The first cursor, from the current one on, at which [f] succeeds. *)
Fixpoint first_along {A} (f : option char → nat → str → option A)
    (prev : option char) (pos : nat) (rest : str) : option A :=
  orelse (f prev pos rest)
    (λ _, match rest with
          | c :: rest' => first_along f (Some c) (S pos) rest'
          | [] => None
          end).

(** [p] fails on the character [o], if there is one. *)
Definition fails {A} (p : A → bool) (o : option A) : Prop :=
  match o with
  | Some c => p c = false
  | None => True
  end.

(** [m] is [s] without a run of [p]-characters at each end, and the runs
    cannot be made longer. *)
Definition stripped_of (p : char → bool) (s m : str) : Prop :=
  ∃ pre post, s = pre ++ m ++ post
    ∧ forallb p pre = true ∧ forallb p post = true
    ∧ fails p (head m) ∧ fails p (last m).

(** ** The style-aware segmenter *)

Section SegmenterNotions.
Context {U : Unicode}.

(** The spans of a document in the order the four loops visit them. *)
Definition line_spans (ln : line) : list span := default [] (ln_spans ln).
Definition block_spans (bk : block) : list span :=
  default [] (bk_lines bk) ≫= line_spans.
Definition all_spans (doc : document) : list span :=
  doc ≫= (λ pg, pg ≫= block_spans).

(** The state after the loop body has run on each of [sps]. *)
Definition scan_spans section_name stop_words (sps : list span) : list str * bool :=
  foldl (span_step section_name stop_words) ([], false) sps.

(** [text] contains a stop word, the case of neither being looked at. *)
Definition names_stop (stop_words : list str) (text : str) : bool :=
  existsb (λ stop, occurs (upper stop) (upper text)) stop_words.

(** [inside_section] once the loop body has run on each of [sps]. *)
Definition inside_after section_name stop_words (sps : list span) : bool :=
  (scan_spans section_name stop_words sps).2.

End SegmenterNotions.

(** ** Section windows *)

(** The pattern that matches the text [s] and nothing else. *)
Definition lit (c : char) : regex := RChar (CLit c).
Definition lit_seq (s : str) : regex := seq_of_list (lit <$> s).

(** A character the lexer reads as itself or as the bar of an
    alternation, and the token it makes. *)
Definition simple (c : char) : bool := plain c || (c =? 124).
Definition tok_of (c : char) : token :=
  if c =? 124 then TBar else TAtom (CLit c).

(** The alternatives that the joined stop headings make: with no stop
    heading the join is empty, and the empty pattern is an alternative. *)
Definition branches (stops : list str) : list str :=
  match stops with
  | [] => [[]]
  | _ => stops
  end.

(** What [section_pattern] compiles to when the heading [h] and the stop
    headings are free of special characters. *)
Definition section_regex (h : str) (stops : list str) : regex :=
  seq_of_list
    ((lit <$> h) ++
     [RSub (Some 1%nat) (seq_of_list [RRep false 0 None CAny]);
      RLook false (seq_of_list
        [lit 10;
         RSub None (alt_of_list ((lit_seq <$> branches stops)
                                 ++ [seq_of_list [RAt AtEnd]]))])]).

(** The text from the cursor on is the end of text, or the newline that
    ends it. *)
Definition at_eol (s : str) : bool :=
  match s with
  | [] => true
  | [c] => c =? 10
  | _ => false
  end.

(** The section ends at the cursor: a newline, then a stop heading or the
    end of the text. *)
Definition terminator (stops : list str) (s : str) : bool :=
  match s with
  | c :: s' => (c =? 10) && (existsb (λ b, startswith b s') stops || at_eol s')
  | [] => false
  end.


(** Some newline of [s] is followed by one of [stops]. *)
Fixpoint stop_line (stops : list str) (s : str) : bool :=
  match s with
  | [] => false
  | c :: s' =>
      ((c =? 10) && existsb (λ b, startswith b s') stops) || stop_line stops s'
  end.

(** A heading whose upper case has no character that is special in a
    pattern. *)
Definition plain_heading `{Unicode} (s : str) : Prop :=
  forallb plain (upper s) = true.

(** ** Certificates *)

(** The certificates as the specification words them: bullets removed at
    the start of a line only. *)
Definition certificates_leading_only (text : str) : list str :=
  lstrip_chars bullets <$> List.filter nonblank (splitlines text).

(** ** Skills *)

(** [^[A-Za-z ]+$] *)
Definition category_regex : regex :=
  seq_of_list
    [RAt AtBeginning;
     RRep true 1 None (CIn false [IRange 65 90; IRange 97 122; ILit 32]);
     RAt AtEnd].

(** The end of the category pattern: [$], then a match. *)
Definition at_end `{Unicode} : cont := λ prev pos rest caps,
  if at_holds AtEnd prev pos rest then accept prev pos rest caps else None.

(** A category-name line: letters and spaces and nothing else. *)
Definition letters_and_spaces (line : str) : bool :=
  nonempty line && forallb (λ c, ascii_letter c || (c =? 32)) line.

(** A skill token that splitting on commas and trimming leaves alone. *)
Definition clean_token (t : str) : Prop :=
  t ≠ [] ∧ (44 ∉ t) ∧ fails is_space (head t) ∧ fails is_space (last t).

(** What the loop keeps true of [(skills, current)]: the current category
    is a key, and every token is clean. *)
Definition skills_inv (st : gmap str (list str) * option str) : Prop :=
  (∀ cur, st.2 = Some cur → is_Some (st.1 !! cur))
  ∧ map_Forall (λ _ toks, Forall clean_token toks) st.1.

(** ** Languages *)

(** [LANGUAGES\n([A-Za-z, ]+)] *)
Definition languages_regex : regex :=
  seq_of_list
    ((lit <$> raw "LANGUAGES") ++
     [lit 10;
      RSub (Some 1%nat) (seq_of_list
        [RRep true 1 None (CIn false [IRange 65 90; IRange 97 122; ILit 44; ILit 32])])]).

(** ** Phone numbers *)

(** [\b\d{10}\b] *)
Definition phone_regex : regex :=
  seq_of_list [RAt AtBoundary; RRep true 10 (Some 10%nat) CDigit; RAt AtBoundary].

(** The maximal runs of characters of [p], in order; [run] is the run in
    progress, latest first. *)
Fixpoint runs_from (p : char → bool) (run : str) (s : str) : list str :=
  match s with
  | [] => match run with [] => [] | _ => [reverse run] end
  | c :: s' =>
      if p c then runs_from p (c :: run) s'
      else match run with
           | [] => runs_from p [] s'
           | _ => reverse run :: runs_from p [] s'
           end
  end.

Section PhoneNotions.
Context {U : Unicode}.

(** The maximal runs of digits of a text. *)
Definition digit_runs (text : str) : list str := runs_from is_digit [] text.

(** [ds] is ten digits between [pre] and [post] with no word character on
    either side. *)
Definition standalone (pre ds post : str) : Prop :=
  length ds = 10%nat ∧ forallb is_digit ds = true
  ∧ word_at (last pre) = false ∧ word_at (head post) = false.

End PhoneNotions.

(** ** Education buckets *)

Section EducationNotions.
Context {U : Unicode}.

(** Each line with the list that is current once the line has been
    looked at. *)
Fixpoint route (current : option bucket) (lines : list str)
    : list (option bucket * str) :=
  match lines with
  | [] => []
  | l :: ls =>
      let current := match trigger l with Some b => Some b | None => current end in
      (current, l) :: route current ls
  end.

Definition bucket_eqb (a b : option bucket) : bool :=
  match a, b with
  | None, None | Some btech, Some btech | Some inter, Some inter
  | Some tenth, Some tenth => true
  | _, _ => false
  end.

(** The lines that carry the tag [b], in order. *)
Definition select (b : option bucket) (tagged : list (option bucket * str))
    : list str :=
  snd <$> List.filter (λ p, bucket_eqb p.1 b) tagged.

(** The lines routed to [b], in order; [None] collects the dropped ones. *)
Definition routed (b : option bucket) (lines : list str) : list str :=
  select b (route None lines).

(** The lines before the first one that has a trigger keyword. *)
Definition before_trigger (lines : list str) : list str :=
  take_while (λ l, negb (truthy (trigger l))) lines.

End EducationNotions.

(** ** Sample inputs *)

Definition one_line (sps : list span) : block := Block (Some [Line (Some sps)]).

(** A page whose only span reads as the fallback message for PROJECTS. *)
Definition fallback_span : span :=
  Span (raw "No bold lines found in PROJECTS") (raw "Helvetica") None.
Definition fallback_doc : document := [[one_line [fallback_span]]].

(** A bold heading, a bold title, body text, and the next heading. *)
Definition projects_doc : document :=
  [[one_line [Span (raw "PROJECTS") (raw "Arial-BoldMT") (Some 20%Z)];
    one_line [Span (raw " Resume Parser ") (raw "Arial-BoldMT") (Some 20%Z);
              Span (raw "extracts fields") (raw "Arial") (Some 4%Z)];
    Block None;
    one_line [Span (raw "SKILLS") (raw "Arial-BoldMT") (Some 20%Z)]]].

(** The same without any bold text in the section. *)
Definition plain_projects_doc : document :=
  [[one_line [Span (raw "PROJECTS") (raw "Arial-BoldMT") (Some 20%Z)];
    one_line [Span (raw "extracts fields") (raw "Arial") (Some 4%Z)];
    one_line [Span (raw "SKILLS") (raw "Arial-BoldMT") (Some 20%Z)]]].

Definition resume_text : str :=
  esc "PROFILE\nBuilds things.\nShips them.\n".

Definition skills_sample : str :=
  esc "Languages\nPython\nTools\nGit, Docker\nLanguages\nC++, Go\nDatabases\nMySQL, Redis".

(** ** Windows as a function *)

(** The text before the first terminator of [s], if there is one. *)
Fixpoint window (stops : list str) (s : str) : option str :=
  if terminator stops s then Some []
  else match s with
       | [] => None
       | c :: s' => cons c <$> window stops s'
       end.

(** The window that follows the first occurrence of the heading [h]. *)
Definition section_window (h : str) (stops : list str) (text : str)
    : option str :=
  i ← find h text; window stops (drop (i + length h) text).

(** ** The sets of the field patterns *)

(** [[A-Za-z ]] *)
Definition name_char (c : char) : bool := ascii_letter c || (c =? 32).

(** [[A-Za-z, ]] *)
Definition language_char (c : char) : bool :=
  ascii_letter c || (c =? 44) || (c =? 32).

(** [[\w\.-]] *)
Definition email_char `{Unicode} (c : char) : bool :=
  is_word c || (c =? 46) || (c =? 45).

(** [.] without [re.DOTALL] *)
Definition not_newline (c : char) : bool := negb (c =? 10).

(** [^[A-Za-z ]+], [[\w\.-]+@[\w\.-]+] and [\bRajahmundry.*] *)
Definition name_regex : regex :=
  seq_of_list
    [RAt AtBeginning;
     RRep true 1 None (CIn false [IRange 65 90; IRange 97 122; ILit 32])].

Definition email_regex : regex :=
  seq_of_list
    [RRep true 1 None (CIn false [IWord; ILit 46; ILit 45]); lit 64;
     RRep true 1 None (CIn false [IWord; ILit 46; ILit 45])].

(** The town that [extract_location] looks for. *)
Definition town : str := raw "Rajahmundry".

Definition location_regex : regex :=
  seq_of_list (RAt AtBoundary :: (lit <$> town) ++ [RRep true 0 None CAny]).

(** ** Spans that count *)

(** A span whose text is not blank: the others are skipped by the first
    [continue]. *)
Definition visible (sp : span) : bool := nonblank (sp_text sp).

(** ** Addresses and the languages line *)

(** [loc], an at sign and [dom] make an address: neither part is empty and
    both are of the set. *)
Definition address `{Unicode} (loc dom : str) : Prop :=
  loc ≠ [] ∧ dom ≠ []
  ∧ forallb email_char loc = true ∧ forallb email_char dom = true.

(** The heading of [extract_languages] with the line break after it. *)
Definition languages_heading : str := esc "LANGUAGES\n".

(** ** The lists of parse_education by name *)

(** The list of the returned triple that belongs to [b]. *)
Definition bucket_of (b : bucket) (r : list str * list str * list str)
    : list str :=
  match b with
  | btech => r.1.1
  | inter => r.1.2
  | tenth => r.2
  end.

(** ** Where tokens come from *)

(** Every token of the dictionary is an item of a line of [all] that is
    not a category line. *)
Definition tokens_from (all : list str) (skills : gmap str (list str)) : Prop :=
  map_Forall (λ _ toks,
    Forall (λ t, ∃ l, l ∈ all ∧ letters_and_spaces (strip l) = false
                      ∧ t ∈ items_of (strip l)) toks) skills.

(** ** Sample files *)

(** Two files with the same visible spans, laid out differently. *)
Definition layout_one : document :=
  [[one_line [Span (raw "PROJECTS") (raw "Arial") None;
              Span (raw "Parser") (raw "Arial-Bold") None]]].
Definition layout_two : document :=
  [[one_line [Span (raw "PROJECTS") (raw "Arial") None]; Block None];
   [one_line [Span (raw "  ") (raw "Arial-Bold") None];
    one_line [Span (raw "Parser") (raw "Arial-Bold") None]]].

(** A file of two pages: the headings SKILLS and CERTIFICATES are in
    neither, and the bold title "Parser" is on the page after the one with
    the heading PROJECTS. *)
Definition first_page : pdf_page :=
  PdfPage (esc "Jane Doe\njane@x.org\nPROFILE\nBuilds things.\nEDUCATION\n")
    [one_line [Span (raw "PROJECTS") (raw "Arial") None]].
Definition second_page : pdf_page :=
  PdfPage (esc "B.Tech, XYZ\nEXPERIENCE\nNone yet\n")
    [one_line [Span (raw "Parser") (raw "Arial-Bold") None]].
Definition two_pages : list pdf_page := [first_page; second_page].


(** * Properties *)

(** Replace the compilation of a pattern that is a literal by its result. *)
Ltac eval_compile :=
  match goal with
  | |- context [re_compile ?p] =>
      let r := eval vm_compute in (re_compile p) in change (re_compile p) with r
  end.

(** Replace the string literals of the goal by their code points. *)
Ltac eval_raw :=
  repeat match goal with
  | |- context [raw ?s] =>
      let l := eval vm_compute in (raw s) in change (raw s) with l
  end.

(** ** Strings *)

Section StringFacts.
Context {A : Type}.
Implicit Types (p : A → bool) (s : list A).

Lemma take_drop_while p s : take_while p s ++ drop_while p s = s.
Proof. induction s as [|c s IH]; [done|]. cbn. destruct (p c); cbn; by f_equal. Qed.

Lemma take_while_all p s : forallb p (take_while p s) = true.
Proof. induction s as [|c s IH]; [done|]. cbn. destruct (p c) eqn:E; cbn; [by rewrite E|done]. Qed.

Lemma drop_while_head p s : fails p (head (drop_while p s)).
Proof. induction s as [|c s IH]; [done|]. cbn. destruct (p c) eqn:E; [done|]. by cbn. Qed.

Lemma drop_while_id p s : fails p (head s) → drop_while p s = s.
Proof. destruct s as [|c s]; [done|]. cbn. by intros ->. Qed.

Lemma drop_while_app_all p s t :
  forallb p s = true → drop_while p (s ++ t) = drop_while p t.
Proof.
  induction s as [|c s IH]; [done|]. cbn. intros [-> ?]%andb_prop. by apply IH.
Qed.

Lemma forallb_agree p q s : (∀ c, p c = q c) → forallb p s = forallb q s.
Proof. intros H. induction s as [|c s IH]; [done|]. cbn. by rewrite H, IH. Qed.

Lemma forallb_reverse p s : forallb p (reverse s) = forallb p s.
Proof.
  induction s as [|c s IH]; [done|].
  rewrite reverse_cons, forallb_app, IH. cbn. by rewrite andb_true_r, andb_comm.
Qed.

End StringFacts.

Section StripFacts.
Implicit Types (p : char → bool) (s m : str).

Lemma rstrip_by_spec p s :
  ∃ post, s = rstrip_by p s ++ post ∧ forallb p post = true
          ∧ fails p (last (rstrip_by p s)).
Proof.
  unfold rstrip_by. exists (reverse (take_while p (reverse s))). split; [|split].
  - rewrite <- reverse_app, take_drop_while. by rewrite reverse_involutive.
  - rewrite forallb_reverse. apply take_while_all.
  - rewrite last_reverse. apply drop_while_head.
Qed.

Lemma strip_by_spec p s : stripped_of p s (strip_by p s).
Proof.
  unfold strip_by, lstrip_by.
  destruct (rstrip_by_spec p (drop_while p s)) as (post & Heq & Hpost & Hlast).
  exists (take_while p s), post. split; [|split; [|split; [|split]]].
  - rewrite <- Heq. by rewrite take_drop_while.
  - apply take_while_all.
  - done.
  - pose proof (drop_while_head p s) as Hh. rewrite Heq in Hh.
    destruct (rstrip_by p (drop_while p s)); [done|]. exact Hh.
  - done.
Qed.

Lemma strip_by_id p m : fails p (head m) → fails p (last m) → strip_by p m = m.
Proof.
  intros Hh Hl. unfold strip_by, lstrip_by, rstrip_by.
  rewrite (drop_while_id p m Hh), drop_while_id.
  - apply reverse_involutive.
  - by rewrite head_reverse.
Qed.

Lemma strip_by_idemp p s : strip_by p (strip_by p s) = strip_by p s.
Proof.
  destruct (strip_by_spec p s) as (? & ? & _ & _ & _ & Hh & Hl).
  by apply strip_by_id.
Qed.

Lemma rstrip_by_app_all p s ws :
  forallb p ws = true → rstrip_by p (s ++ ws) = rstrip_by p s.
Proof.
  intros Hws. unfold rstrip_by. rewrite reverse_app, drop_while_app_all; [done|].
  by rewrite forallb_reverse.
Qed.

(** Characters of [p] after the text do not change what is left. *)
Lemma strip_by_app_all p s ws :
  forallb p ws = true → strip_by p (s ++ ws) = strip_by p s.
Proof.
  intros Hws. unfold strip_by, lstrip_by.
  induction s as [|c s IH].
  - cbn. rewrite <- (app_nil_r ws), drop_while_app_all by done. done.
  - cbn. destruct (p c); [done|]. by apply (rstrip_by_app_all p (c :: s)).
Qed.

Lemma stripped_of_elem p s m c : stripped_of p s m → c ∈ m → c ∈ s.
Proof. intros (pre & post & -> & _) Hc. set_solver. Qed.

Lemma nonempty_true s : nonempty s = true ↔ s ≠ [].
Proof. by destruct s. Qed.

End StripFacts.

(** ** Matching *)

Section MatchingFacts.
Context {U : Unicode}.
Variable dotall : bool.

Lemma rep_match_eq ok greedy lo hi prev pos rest caps k :
  rep_match ok greedy lo hi prev pos rest caps k
  = let more (_ : unit) :=
      match hi with
      | Some O => None
      | _ =>
          match rest with
          | c :: rest' =>
              if ok c
              then rep_match ok greedy (pred lo) (pred <$> hi) (Some c) (S pos)
                     rest' caps k
              else None
          | [] => None
          end
      end in
    match lo with
    | S _ => more tt
    | O =>
        if greedy then orelse (more tt) (λ _, k prev pos rest caps)
        else orelse (k prev pos rest caps) more
    end.
Proof. by destruct rest. Qed.

Lemma orelse_none {A} (a : option A) : orelse a (λ _, None) = a.
Proof. by destruct a. Qed.

Lemma prev_of_cons prev c pre : prev_of prev (c :: pre) = prev_of (Some c) pre.
Proof. unfold prev_of. rewrite last_cons. by destruct (last pre). Qed.

Lemma prev_of_app prev pre1 pre2 :
  prev_of prev (pre1 ++ pre2) = prev_of (prev_of prev pre1) pre2.
Proof. unfold prev_of. rewrite last_app. by destruct (last pre2). Qed.

(** A count [{n}]: exactly [n] characters of the set, then the rest of the
    pattern. *)
Lemma rep_exact ok greedy n prev pos rest caps k :
  rep_match ok greedy n (Some n) prev pos rest caps k
  = if (length (take n rest) =? n)%nat && forallb ok (take n rest)
    then k (prev_of prev (take n rest)) (pos + n)%nat (drop n rest) caps
    else None.
Proof.
  revert prev pos rest. induction n as [|n IH]; intros prev pos rest.
  - rewrite rep_match_eq. cbn. rewrite Nat.add_0_r, take_0, drop_0.
    destruct greedy; cbn; [done|apply orelse_none].
  - rewrite rep_match_eq. cbn zeta. cbn [pred fmap option_fmap option_map].
    destruct rest as [|c rest]; [done|].
    destruct (ok c) eqn:Hc; cbn [take drop forallb length]; rewrite Hc.
    + rewrite IH. cbn [Nat.eqb andb]. rewrite <- Nat.add_succ_comm.
      by rewrite prev_of_cons.
    + by rewrite andb_false_r.
Qed.

(** [first_along] returns what [f] gives at the first cursor where it
    gives anything. *)
Lemma first_along_spec {A} (f : option char → nat → str → option A) prev pos rest :
  match first_along f prev pos rest with
  | Some m =>
      ∃ pre post, rest = pre ++ post
        ∧ f (prev_of prev pre) (pos + length pre)%nat post = Some m
        ∧ ∀ pre' post', rest = pre' ++ post' → (length pre' < length pre)%nat →
            f (prev_of prev pre') (pos + length pre')%nat post' = None
  | None =>
      ∀ pre post, rest = pre ++ post →
        f (prev_of prev pre) (pos + length pre)%nat post = None
  end.
Proof.
  revert prev pos. induction rest as [|c rest IH]; intros prev pos.
  - cbn. destruct (f prev pos []) as [m|] eqn:Hm; cbn.
    + exists [], []. rewrite Nat.add_0_r. split; [done|]. split; [done|].
      intros ? ? _ ?. cbn in *. lia.
    + intros [|] ? ?; [|done]. cbn in *. subst. by rewrite Nat.add_0_r.
  - cbn. destruct (f prev pos (c :: rest)) as [m|] eqn:Hm; cbn.
    + exists [], (c :: rest). rewrite Nat.add_0_r. split; [done|]. split; [done|].
      intros ? ? _ ?. cbn in *. lia.
    + specialize (IH (Some c) (S pos)).
      pose proof (prev_of_cons prev c) as Hprev.
      destruct (first_along f (Some c) (S pos) rest) as [m|].
      * destruct IH as (pre & post & -> & Hhere & Hfirst).
        exists (c :: pre), post. split; [done|]. split.
        -- rewrite Hprev. cbn [length]. by rewrite <- Nat.add_succ_comm.
        -- intros [|c' pre'] post' Heq Hlen.
           ++ cbn in Heq. subst. by rewrite Nat.add_0_r.
           ++ injection Heq as <- Heq. rewrite Hprev. cbn [length] in *.
              rewrite <- Nat.add_succ_comm. apply Hfirst; [done|lia].
      * intros [|c' pre] post Heq.
        -- cbn in Heq. subst. by rewrite Nat.add_0_r.
        -- injection Heq as <- Heq. rewrite Hprev. cbn [length].
           rewrite <- Nat.add_succ_comm. by apply IH.
Qed.

Lemma search_from_along r prev pos rest :
  search_from dotall r prev pos rest
  = first_along (match_here dotall r) prev pos rest.
Proof.
  revert prev pos. induction rest as [|c rest IH]; intros prev pos; [done|].
  cbn. by rewrite IH.
Qed.

(** [search_from] returns the match at the first cursor that has one. *)
Lemma search_from_first r prev pos rest :
  match search_from dotall r prev pos rest with
  | Some m =>
      ∃ pre post, rest = pre ++ post
        ∧ match_here dotall r (prev_of prev pre) (pos + length pre) post = Some m
        ∧ ∀ pre' post', rest = pre' ++ post' → (length pre' < length pre)%nat →
            match_here dotall r (prev_of prev pre') (pos + length pre') post' = None
  | None =>
      ∀ pre post, rest = pre ++ post →
        match_here dotall r (prev_of prev pre) (pos + length pre) post = None
  end.
Proof. rewrite search_from_along. apply first_along_spec. Qed.

(** A lazy [.*] under [re.DOTALL] tries the rest of the pattern at each
    cursor in turn. *)
Lemma lazy_any_along prev pos rest caps k :
  rep_match (cset_mem true CAny) false 0 None prev pos rest caps k
  = first_along (λ p n s, k p n s caps) prev pos rest.
Proof.
  revert prev pos. induction rest as [|c rest IH]; intros prev pos; [done|].
  cbn. by rewrite IH.
Qed.

(** Literal characters at the head of a pattern match themselves. *)
Lemma rmatch_lits h rs prev pos rest caps k :
  rmatch dotall (seq_of_list ((lit <$> h) ++ rs)) prev pos rest caps k
  = if startswith h rest
    then rmatch dotall (seq_of_list rs) (prev_of prev h) (pos + length h)
           (drop (length h) rest) caps k
    else None.
Proof.
  revert prev pos rest. induction h as [|a h IH]; intros prev pos rest.
  - cbn. by rewrite Nat.add_0_r.
  - cbn [fmap list_fmap app seq_of_list foldr rmatch lit cset_mem startswith].
    destruct rest as [|b rest]; [done|].
    rewrite (N.eqb_sym a b). destruct (N.eqb_spec b a) as [->|]; [|done].
    cbn [andb length drop]. fold (seq_of_list ((lit <$> h) ++ rs)).
    rewrite IH, prev_of_cons. by rewrite <- Nat.add_succ_comm.
Qed.

Lemma rmatch_lit_seq h prev pos rest caps k :
  rmatch dotall (lit_seq h) prev pos rest caps k
  = if startswith h rest
    then k (prev_of prev h) (pos + length h)%nat (drop (length h) rest) caps
    else None.
Proof.
  unfold lit_seq. rewrite <- (app_nil_r (lit <$> h)). by rewrite rmatch_lits.
Qed.

Lemma alt_of_list_cons r rs :
  rs ≠ [] → alt_of_list (r :: rs) = RAlt r (alt_of_list rs).
Proof. by destruct rs. Qed.

(** The alternatives of the stop headings, then [$]: one of them matches
    at the cursor, and no group is set. *)
Lemma rmatch_branches stops prev pos rest caps :
  let r := alt_of_list ((lit_seq <$> stops) ++ [seq_of_list [RAt AtEnd]]) in
  if existsb (λ b, startswith b rest) stops || at_eol rest
  then ∃ e, rmatch dotall r prev pos rest caps accept = Some (e, caps)
  else rmatch dotall r prev pos rest caps accept = None.
Proof.
  induction stops as [|b stops IH]; cbn zeta in *.
  - cbn. unfold at_eol. destruct rest as [|c [|]]; cbn; [by eexists| |done].
    destruct (c =? 10); [by eexists|done].
  - cbn [fmap list_fmap app existsb].
    rewrite alt_of_list_cons by (by destruct stops).
    cbn [rmatch]. rewrite !rmatch_lit_seq.
    destruct (startswith b rest); cbn [orb orelse].
    + unfold accept. by eexists.
    + exact IH.
Qed.

End MatchingFacts.

(** ** Patterns of the program, compiled *)

Example compile_email :
  re_compile (raw "[\w\.-]+@[\w\.-]+") =
  Returns (seq_of_list
    [RRep true 1 None (CIn false [IWord; ILit 46; ILit 45]); lit 64;
     RRep true 1 None (CIn false [IWord; ILit 46; ILit 45])]).
Proof. reflexivity. Qed.

Example compile_name :
  re_compile (raw "^[A-Za-z ]+") =
  Returns (seq_of_list
    [RAt AtBeginning;
     RRep true 1 None (CIn false [IRange 65 90; IRange 97 122; ILit 32])]).
Proof. reflexivity. Qed.

Example compile_location :
  re_compile (raw "\bRajahmundry.*") =
  Returns (seq_of_list
    (RAt AtBoundary :: (lit <$> raw "Rajahmundr") ++ [lit 121; RRep true 0 None CAny])).
Proof. reflexivity. Qed.

Example compile_section :
  re_compile (raw "PROFILE(.*?)(?=\n(?:EDUCATION|$))") =
  Returns (section_regex (raw "PROFILE") [raw "EDUCATION"]).
Proof. reflexivity. Qed.

(** What [re.compile] rejects: a group left open, a parenthesis too many,
    a quantifier with nothing before it, two quantifiers in a row, a set
    left open, a range that runs backwards, a backslash at the end. *)
Example compile_errors :
  Forall (λ p, re_compile p = Raises re_error)
    [raw "((.*?)(?=\n(?:|$))"; raw ")"; raw "*"; raw "(*"; raw "|*"; raw "^*";
     raw "a**"; raw "a*??"; raw "a{2}{3}"; raw "[abc"; raw "[z-a]"; raw "[\w-a]";
     raw "a\"].
Proof. repeat constructor. Qed.

(** Patterns outside the fragment: quantified groups, possessive
    quantifiers, open counts, other extensions and escapes. *)
Example compile_unmodelled :
  Forall (λ p, re_compile p = Unmodelled)
    [raw "(a)*"; raw "a*+"; raw "a{"; raw "a{1,2}"; raw "(?i)a"; raw "\s"; raw "\1"].
Proof. repeat constructor. Qed.

(** ** Strings of the program, evaluated *)

Example splitlines_examples :
  splitlines (esc "a\nb") = [raw "a"; raw "b"]
  ∧ splitlines (raw "a" ++ [13; 10] ++ raw "b") = [raw "a"; raw "b"]
  ∧ splitlines (esc "a\n\nb") = [raw "a"; []; raw "b"]
  ∧ splitlines (esc "a\n") = [raw "a"]
  ∧ splitlines (esc "\n") = [[]]
  ∧ splitlines [] = [].
Proof. repeat split. Qed.

Example strip_examples :
  strip (esc " \t Jane Doe \n") = raw "Jane Doe"
  ∧ strip (esc " \n ") = []
  ∧ strip_chars bullets (bullet :: raw " - AWS - ") = raw "AWS"
  ∧ lstrip_chars bullets (bullet :: raw " - AWS - ") = raw "AWS - ".
Proof. repeat split. Qed.

Example split_examples :
  split_on 44 (raw "A,B,,") = [raw "A"; raw "B"; []; []]
  ∧ split_on 44 [] = [[]]
  ∧ join (raw "|") [raw "A"; raw "B"] = raw "A|B"
  ∧ join (raw "|") [] = [].
Proof. repeat split. Qed.

Example find_examples :
  find (raw "an") (raw "banana") = Some 1%nat
  ∧ find (raw "x") (raw "banana") = None
  ∧ occurs (raw "nan") (raw "banana") = true
  ∧ occurs [] [] = true.
Proof. repeat split. Qed.

(** ** The scenarios of the specification *)

Section Scenarios.
Context {U : Unicode}.

Example scenario_A :
  extract_section (esc "PROFILE\nBuilds things.\nEDUCATION\nB.Tech CS")
    (raw "PROFILE") [raw "EDUCATION"] = Returns (raw "Builds things.").
Proof. vm_compute. reflexivity. Qed.

Example scenario_B :
  extract_email (raw "Contact: jane.doe@example.com") = Returns (raw "jane.doe@example.com")
  ∧ extract_email (raw "no address here") = Returns not_found.
Proof. split; vm_compute; reflexivity. Qed.

(** A line of letters and spaces alone is a category name, so [Git] below
    opens a category of its own. *)
Example scenario_C :
  map_to_list <$> parse_skills (esc "Languages\nPython, Go\nTools\nGit") =
  Returns [(raw "Git", []); (raw "Tools", []);
           (raw "Languages", [raw "Python"; raw "Go"])].
Proof. vm_compute. reflexivity. Qed.

Example scenario_name :
  extract_name (esc "Jane Doe\nEngineer") = Returns (raw "Jane Doe").
Proof. vm_compute. reflexivity. Qed.

Example scenario_location :
  extract_location (esc "Lives in Rajahmundry, AP \nIndia") = Returns (raw "Rajahmundry, AP").
Proof. vm_compute. reflexivity. Qed.

Example scenario_languages :
  extract_languages (esc "LANGUAGES\nEnglish, Telugu\nDECLARATION") =
  Returns [raw "English"; raw " Telugu"].
Proof. vm_compute. reflexivity. Qed.

(** The inputs below are ASCII, so what the program does with them is the
    same whatever the Unicode tables are. *)

Example lowercase_heading_any_tables :
  extract_section (esc "profile\nBuilds things.\nEDUCATION\nB.Tech CS")
    (raw "profile") [raw "EDUCATION"] = Returns not_found.
Proof. vm_compute. reflexivity. Qed.

Example empty_stop_list_any_tables :
  extract_section (esc "PROFILE Builds things.\nShips them.\n") (raw "PROFILE") []
  = Returns (raw "Builds things.").
Proof. vm_compute. reflexivity. Qed.

Example no_final_newline_any_tables :
  extract_section (esc "PROFILE\nBuilds things.") (raw "PROFILE") [raw "EDUCATION"]
  = Returns not_found.
Proof. vm_compute. reflexivity. Qed.

Example heading_raises_any_tables :
  extract_section (raw "x") (raw "(") [] = Raises re_error
  ∧ extract_section (raw "A") (raw "a|b") [] = Raises AttributeError
  ∧ extract_section (raw "C++ and C") (raw "C++") [] = Unmodelled.
Proof. repeat split; vm_compute; reflexivity. Qed.

Example fallback_any_tables :
  extract_bold_lines_from_section fallback_doc (raw "PROJECTS") [raw "SKILLS"]
  = [sp_text fallback_span].
Proof. vm_compute. reflexivity. Qed.

(** A stop word in lower case never matches the upper-cased text. *)
Example lowercase_stop_any_tables :
  extract_bold_lines_from_section projects_doc (raw "projects") [raw "skills"]
  = [raw "Resume Parser"; raw "SKILLS"].
Proof. vm_compute. reflexivity. Qed.

End Scenarios.

(** ** The style-aware segmenter *)

Section BoldLines.
Context {U : Unicode}.
Implicit Types (doc : document) (sp : span) (section_name : str)
  (stop_words : list str).

Lemma foldl_bind {A B S} (f : S → B → S) (g : A → list B) (l : list A) (a : S) :
  foldl f a (l ≫= g) = foldl (λ a x, foldl f a (g x)) a l.
Proof.
  revert a. induction l as [|x l IH]; intros a; [done|].
  cbn [mbind list_bind]. rewrite foldl_app. apply IH.
Qed.

(** The four nested loops are one loop over the spans in reading order. *)
Lemma scan_document_spans doc section_name stop_words :
  scan_document section_name stop_words doc
  = scan_spans section_name stop_words (all_spans doc).
Proof.
  unfold scan_document, scan_spans, all_spans.
  rewrite foldl_bind. generalize (@nil str, false).
  induction doc as [|pg doc IH]; intros st; [done|].
  cbn [foldl]. rewrite <- IH. f_equal.
  unfold scan_page. rewrite foldl_bind. clear IH.
  revert st. induction pg as [|bk pg IH]; intros st; [done|].
  cbn [foldl]. rewrite <- IH. f_equal.
  unfold scan_block, block_spans. rewrite foldl_bind. reflexivity.
Qed.

(** Whatever the loop body appends passed both the heading test and the
    stop test. *)
Lemma span_step_clean section_name stop_words st sp :
  Forall (λ t, hits_section section_name t = false
               ∧ hits_stop stop_words t = false) st.1 →
  Forall (λ t, hits_section section_name t = false
               ∧ hits_stop stop_words t = false)
    (span_step section_name stop_words st sp).1.
Proof.
  destruct st as [bold_lines inside]. unfold span_step. cbn [fst].
  intros Hall.
  destruct (nonempty (strip (sp_text sp))); cbn [negb]; [|done].
  destruct (hits_section section_name (strip (sp_text sp))) eqn:Hsec; [done|].
  destruct (hits_stop stop_words (strip (sp_text sp))) eqn:Hstop; [done|].
  destruct (inside && is_bold sp); [|done].
  cbn [fst]. apply Forall_app. split; [done|]. by constructor.
Qed.

Lemma scan_spans_clean section_name stop_words sps :
  Forall (λ t, hits_section section_name t = false
               ∧ hits_stop stop_words t = false)
    (scan_spans section_name stop_words sps).1.
Proof.
  unfold scan_spans.
  induction sps as [|sp sps IH] using rev_ind; [by constructor|].
  rewrite foldl_app. cbn [foldl]. by apply span_step_clean.
Qed.

Lemma extract_bold_lines_cases doc section_name stop_words :
  let bold_lines := (scan_spans section_name stop_words (all_spans doc)).1 in
  (bold_lines ≠ []
   ∧ extract_bold_lines_from_section doc section_name stop_words = bold_lines)
  ∨ (bold_lines = []
     ∧ extract_bold_lines_from_section doc section_name stop_words
       = [no_bold_lines section_name]).
Proof.
  unfold extract_bold_lines_from_section. rewrite scan_document_spans.
  destruct (scan_spans _ _ _).1; [by right|by left].
Qed.

(** C3, as the code has it.  The stop words are written in upper case,
    as [main] writes them.  Take a span whose trimmed text contains the
    heading or a stop word, the case of neither being looked at.  Its text
    is never appended to [bold_lines]; the returned list holds that text
    only when nothing was appended and the text is the fallback message
    itself; and when the span is not blank the loop body leaves
    [bold_lines] alone and sets [inside_section] to true if the text
    contains the heading, a stop word beside it or not, and to false if it
    contains a stop word only. *)
Theorem marker_spans_never_appended doc section_name stop_words sp :
  sp ∈ all_spans doc →
  Forall (λ stop, upper stop = stop) stop_words →
  (hits_section section_name (strip (sp_text sp)) = true
   ∨ names_stop stop_words (strip (sp_text sp)) = true) →
  (strip (sp_text sp) ∉ (scan_document section_name stop_words doc).1)
  ∧ (strip (sp_text sp) ∈ extract_bold_lines_from_section doc section_name stop_words →
     (scan_document section_name stop_words doc).1 = []
     ∧ strip (sp_text sp) = raw "No bold lines found in " ++ upper section_name)
  ∧ (nonempty (strip (sp_text sp)) = true →
     ∀ st, span_step section_name stop_words st sp
           = (st.1, hits_section section_name (strip (sp_text sp)))).
Proof.
  intros _ Hupper.
  assert (Hsame : names_stop stop_words (strip (sp_text sp))
                  = hits_stop stop_words (strip (sp_text sp))).
  { unfold names_stop, hits_stop.
    induction Hupper as [|stop stops Hstop _ IH]; [done|].
    cbn [existsb]. by rewrite Hstop, IH. }
  rewrite Hsame. clear Hsame Hupper. intros Hhit.
  assert (Hstep : nonempty (strip (sp_text sp)) = true →
     ∀ st, span_step section_name stop_words st sp
           = (st.1, hits_section section_name (strip (sp_text sp)))).
  { intros Hne [bold_lines inside]. unfold span_step. rewrite Hne. cbn [negb fst].
    destruct (hits_section section_name (strip (sp_text sp))); [done|].
    destruct Hhit as [Hhit|Hhit]; [done|]. by rewrite Hhit. }
  refine ((λ H, conj (proj1 H) (conj (proj2 H) Hstep)) _).
  assert (Hnot : strip (sp_text sp) ∉ (scan_document section_name stop_words doc).1).
  { rewrite scan_document_spans. intros Hin.
    pose proof (scan_spans_clean section_name stop_words (all_spans doc)) as Hclean.
    rewrite Forall_forall in Hclean. destruct (Hclean _ Hin) as [H1 H2].
    destruct Hhit; congruence. }
  split; [done|]. intros Hin.
  destruct (extract_bold_lines_cases doc section_name stop_words) as [[_ Heq]|[Hnil Heq]].
  - rewrite Heq, <- scan_document_spans in Hin. done.
  - rewrite Heq in Hin. apply list_elem_of_singleton in Hin.
    by rewrite scan_document_spans.
Qed.

(** C4.  If every span that is tested for bold while [inside_section] holds
    fails the test, the result is one entry, the words "No bold lines found
    in " followed by the heading in upper case; and the result is never the
    empty list. *)
Theorem no_bold_gives_fallback doc section_name stop_words :
  ((∀ pre sp post,
      all_spans doc = pre ++ sp :: post →
      nonempty (strip (sp_text sp)) = true →
      hits_section section_name (strip (sp_text sp)) = false →
      inside_after section_name stop_words (pre ++ [sp]) = true →
      is_bold sp = false) →
   extract_bold_lines_from_section doc section_name stop_words
   = [raw "No bold lines found in " ++ upper section_name])
  ∧ extract_bold_lines_from_section doc section_name stop_words ≠ [].
Proof.
  split.
  - intros Hno.
    destruct (extract_bold_lines_cases doc section_name stop_words)
      as [[Hne _]|[_ Heq]]; [exfalso; apply Hne; clear Hne|done].
    revert Hno. generalize (all_spans doc) as sps.
    induction sps as [|sp sps IH] using rev_ind; intros Hno; [done|].
    assert (Hpre : (scan_spans section_name stop_words sps).1 = []).
    { apply IH. intros pre sp' post Heq. apply (Hno pre sp' (post ++ [sp])).
      rewrite Heq, <- app_assoc. reflexivity. }
    specialize (Hno sps sp [] eq_refl).
    unfold inside_after, scan_spans in *. rewrite foldl_app in *. cbn [foldl] in *.
    destruct (foldl _ _ sps) as [bold_lines inside]. cbn [fst] in Hpre. subst.
    unfold span_step in *.
    destruct (nonempty (strip (sp_text sp))); cbn [negb] in *; [|done].
    destruct (hits_section section_name (strip (sp_text sp))); [done|].
    destruct (hits_stop stop_words (strip (sp_text sp))).
    + done.
    + destruct inside; cbn [andb] in *; [|done].
      destruct (is_bold sp) eqn:Hb; [|done].
      cbn [snd] in Hno. by specialize (Hno eq_refl eq_refl eq_refl).
  - destruct (extract_bold_lines_cases doc section_name stop_words)
      as [[Hne ->]|[_ ->]]; done.
Qed.

End BoldLines.

(** ** Education buckets *)

Section Education.
Context {U : Unicode}.

Lemma edu_step_current st l :
  e_current (edu_step st l)
  = match trigger l with Some b => Some b | None => e_current st end.
Proof. unfold edu_step. destruct (trigger l) as [[]|], (e_current st) as [[]|]; done. Qed.

(** The loop appends to each list the lines routed to it. *)
Lemma edu_loop_route lines st :
  let st' := foldl edu_step st lines in
  e_btech st' = e_btech st ++ select (Some btech) (route (e_current st) lines)
  ∧ e_inter st' = e_inter st ++ select (Some inter) (route (e_current st) lines)
  ∧ e_tenth st' = e_tenth st ++ select (Some tenth) (route (e_current st) lines).
Proof.
  revert st. induction lines as [|l lines IH]; intros st.
  - cbn. by rewrite !app_nil_r.
  - cbn [foldl route]. cbn zeta.
    destruct (IH (edu_step st l)) as (Hb & Hi & Ht).
    rewrite Hb, Hi, Ht, edu_step_current. clear.
    unfold edu_step, select.
    destruct (trigger l) as [[]|], (e_current st) as [[]|];
      cbn; rewrite <- ?app_assoc; done.
Qed.

Lemma route_lines current lines : snd <$> route current lines = lines.
Proof.
  revert current. induction lines as [|l lines IH]; intros current; [done|].
  cbn. by rewrite IH.
Qed.

Lemma select_partition tagged :
  select (Some btech) tagged ++ select (Some inter) tagged
  ++ select (Some tenth) tagged ++ select None tagged
  ≡ₚ snd <$> tagged.
Proof.
  unfold select. induction tagged as [|[[[]|] l] tagged IH]; [done|..]; cbn.
  - by rewrite IH.
  - rewrite <- Permutation_middle. by rewrite IH.
  - rewrite (app_assoc _ _ (l :: _)), <- Permutation_middle, <- app_assoc.
    by rewrite IH.
  - rewrite !(app_assoc _ _ (l :: _)), <- Permutation_middle, <- !app_assoc.
    by rewrite IH.
Qed.

(** Once a list is current no later line is dropped. *)
Lemma route_some_none b lines : select None (route (Some b) lines) = [].
Proof.
  revert b. induction lines as [|l lines IH]; intros b; [done|].
  cbn. destruct (trigger l) as [b'|]; cbn.
  - destruct b'; apply IH.
  - destruct b; apply IH.
Qed.

Lemma dropped_before_trigger lines : routed None lines = before_trigger lines.
Proof.
  unfold routed, before_trigger.
  induction lines as [|l lines IH]; [done|].
  cbn. destruct (trigger l) as [b|]; cbn.
  - destruct b; apply route_some_none.
  - by rewrite <- IH.
Qed.

(** C6.  The lines are the non-blank lines of the text, each without the
    bullet characters at its two ends.  The three lists are the lines
    routed to them, the trigger line included; the lines routed nowhere are
    those before the first trigger; the four groups are a partition of the
    line occurrences; and the example of the specification comes out as
    stated, as does one with bullets and blank lines. *)
Theorem education_partition (edu_text : str) :
  let lines := strip_chars bullets <$> List.filter nonblank (splitlines edu_text) in
  (parse_education edu_text
   = Returns (routed (Some btech) lines, routed (Some inter) lines,
              routed (Some tenth) lines))
  ∧ Forall2 (stripped_of (mem bullets))
      (List.filter nonblank (splitlines edu_text)) lines
  ∧ Forall (λ l, nonblank l = true) (List.filter nonblank (splitlines edu_text))
  ∧ routed None lines = before_trigger lines
  ∧ routed (Some btech) lines ++ routed (Some inter) lines
    ++ routed (Some tenth) lines ++ routed None lines ≡ₚ lines
  ∧ parse_education
      (esc "Bachelor of Engineering\nXYZ College\nIntermediate\nABC Junior College")
    = Returns ([raw "Bachelor of Engineering"; raw "XYZ College"],
               [raw "Intermediate"; raw "ABC Junior College"], [])
  ∧ parse_education
      (bullet :: esc " Marks: 90\n\n- Bachelor of Engineering -\n \t \n"
       ++ bullet :: esc " XYZ College\n\nIntermediate\n  - ABC Junior College")
    = Returns ([raw "Bachelor of Engineering"; raw "XYZ College"],
               [raw "Intermediate"; raw "ABC Junior College"], []).
Proof.
  intros lines. split; [|split; [|split; [|split; [|split; [|split]]]]].
  - unfold parse_education. change (edu_lines edu_text) with lines.
    destruct (edu_loop_route lines (Edu [] [] [] None)) as (-> & -> & ->).
    reflexivity.
  - apply Forall2_fmap_r, Forall_Forall2_diag, Forall_forall.
    intros l _. apply strip_by_spec.
  - apply Forall_forall. intros l Hl.
    by apply list_elem_of_In, filter_In in Hl as [_ Hl].
  - apply dropped_before_trigger.
  - unfold routed. rewrite <- (route_lines None lines) at 5.
    apply select_partition.
  - vm_compute. reflexivity.
  - vm_compute. reflexivity.
Qed.

(** A line holding two trigger keywords goes to the first list that claims
    it, and a line with none follows the list before it. *)
Example education_precedence :
  parse_education (esc "High School\n- 2015 -\nIntermediate at XYZ Engineering College")
  = Returns ([raw "Intermediate at XYZ Engineering College"], [],
             [raw "High School"; raw "2015"]).
Proof. vm_compute. reflexivity. Qed.

End Education.

(** ** Certificates *)

Section Certificates.

Lemma filter_nil_iff {A} (p : A → bool) (l : list A) :
  List.filter p l = [] ↔ Forall (λ x, p x = false) l.
Proof.
  induction l as [|x l IH]; cbn.
  - split; [by constructor|done].
  - destruct (p x) eqn:E.
    + split; [done|]. intros H. inversion H; congruence.
    + rewrite IH. split; [by constructor|]. by inversion 1.
Qed.

(** C8, as the code has it.  There is one entry per non-blank line; it is
    the line without the run of bullet characters at its start and without
    the run at its end; and the list is empty exactly when no line is
    non-blank. *)
Theorem certificates_stripped_both_ends (text : str) :
  ∃ certs,
    extract_certificates text = Returns certs
    ∧ Forall2 (stripped_of (mem bullets))
        (List.filter nonblank (splitlines text)) certs
    ∧ (certs = [] ↔ Forall (λ l, nonblank l = false) (splitlines text)).
Proof.
  eexists. split; [reflexivity|]. split.
  - apply Forall2_fmap_r, Forall_Forall2_diag, Forall_forall.
    intros l _. apply strip_by_spec.
  - rewrite <- filter_nil_iff. split; [apply fmap_nil_inv|by intros ->].
Qed.

(** The entry for a line that ends in a bullet character has lost it, so
    the entries are not the lines stripped at the start only. *)
Lemma certificates_lose_trailing_bullets :
  extract_certificates (raw "- AWS Certified -") = Returns [raw "AWS Certified"]
  ∧ certificates_leading_only (raw "- AWS Certified -") = [raw "AWS Certified -"]
  ∧ ¬ (∀ text, extract_certificates text = Returns (certificates_leading_only text)).
Proof.
  split; [vm_compute; reflexivity|]. split; [vm_compute; reflexivity|].
  intros H. specialize (H (raw "- AWS Certified -")). vm_compute in H. discriminate H.
Qed.

Example certificates_scenario :
  extract_certificates (bullet :: esc " AWS Cloud\n\n- Python (Coursera)\n  ")
  = Returns [raw "AWS Cloud"; raw "Python (Coursera)"].
Proof. vm_compute. reflexivity. Qed.

End Certificates.

(** ** Skills *)

Section Skills.
Context {U : Unicode}.
Implicit Types (skills : gmap str (list str)) (current : option str).

Lemma compile_category : re_compile (raw "^[A-Za-z ]+$") = Returns category_regex.
Proof. reflexivity. Qed.

Lemma greedy_nil ok lo prev pos caps k :
  rep_match ok true lo None prev pos [] caps k
  = match lo with S _ => None | O => k prev pos [] caps end.
Proof. by destruct lo. Qed.

Lemma greedy_cons ok lo c rest prev pos caps k :
  rep_match ok true lo None prev pos (c :: rest) caps k
  = let more :=
      if ok c then rep_match ok true (pred lo) None (Some c) (S pos) rest caps k
      else None in
    match lo with
    | S _ => more
    | O => orelse more (λ _, k prev pos (c :: rest) caps)
    end.
Proof. by destruct lo. Qed.

(** A greedy run that must reach the end of a line that no newline ends:
    it matches when every character is in the set. *)
Lemma greedy_to_end ok lo rest prev pos caps :
  last rest ≠ Some 10 →
  is_Some (rep_match ok true lo None prev pos rest caps at_end)
  ↔ forallb ok rest = true ∧ (lo ≤ length rest)%nat.
Proof.
  revert lo prev pos. induction rest as [|c rest IH]; intros lo prev pos Hlast.
  - rewrite greedy_nil. destruct lo; cbn.
    + split; [intros _; split; [done|lia]|intros _; by eexists].
    + split; [by intros []|intros [_ ?]; lia].
  - assert (Hlast' : last rest ≠ Some 10).
    { destruct rest; [done|]. exact Hlast. }
    assert (Hend : at_end prev pos (c :: rest) caps = None).
    { unfold at_end. cbn. destruct rest; [|done].
      destruct (c =? 10) eqn:E; [|done]. apply N.eqb_eq in E. by subst. }
    rewrite greedy_cons. cbn zeta. cbn [forallb length].
    pose proof (IH (pred lo) (Some c) (S pos) Hlast') as IH'.
    destruct (ok c); cbn [andb].
    + destruct lo as [|lo]; cbn [pred] in *.
      * destruct (rep_match _ _ _ _ _ _ _ _ _) eqn:E; cbn [orelse]; cbv beta.
        -- split; [intros _|by eexists]. split; [|lia]. apply IH'. by eexists.
        -- rewrite Hend. split; [by intros []|]. intros [Hall _].
           apply IH'. split; [done|lia].
      * rewrite IH'. split; intros [? ?]; split; [done|lia|done|lia].
    + destruct lo; cbn [orelse]; cbv beta; [rewrite Hend|]; split; by intros [].
Qed.

Lemma category_match line :
  last line ≠ Some 10 →
  truthy (match_here false category_regex None 0 line) = letters_and_spaces line.
Proof.
  intros Hlast. unfold match_here, category_regex. cbn [seq_of_list foldr rmatch].
  cbn [at_holds Nat.eqb].
  set (ok := cset_mem false _).
  pose proof (greedy_to_end ok 1 line None 0%nat ∅ Hlast) as Hiff.
  unfold at_end in Hiff.
  assert (Hok : forallb ok line = forallb (λ c, ascii_letter c || (c =? 32)) line).
  { apply forallb_agree. intros c. unfold ok, ascii_letter. cbn.
    by rewrite orb_false_r, orb_assoc. }
  unfold letters_and_spaces. rewrite <- Hok.
  match goal with |- truthy (match ?m with _ => _ end) = _ =>
    match type of Hiff with is_Some ?m' ↔ _ => change m' with m in Hiff end;
    destruct m as [[e caps]|] end.
  - destruct (proj1 Hiff) as [-> Hlen]; [by eexists|].
    destruct line; [cbn in Hlen; lia|done].
  - cbn. destruct (forallb ok line) eqn:Hall; [|by rewrite andb_false_r].
    destruct line as [|c line]; [done|].
    destruct (proj2 Hiff) as [? [=]]. split; [done|cbn; lia].
Qed.

Lemma occurs_elem (c : char) (s : str) : occurs [c] s = true → c ∈ s.
Proof.
  induction s as [|d s IH]; [done|]. cbn -[N.eqb].
  destruct (c =? d) eqn:E; cbn.
  - apply N.eqb_eq in E as ->. intros _. by left.
  - intros H. right. by apply IH.
Qed.

(** On a trimmed line the test for a category name is [letters_and_spaces]. *)
Lemma heading_test line :
  fails is_space (last line) →
  (if negb (occurs (raw ":") line)
   then m ← re_match (raw "^[A-Za-z ]+$") line; Returns (truthy m)
   else Returns false)
  = Returns (letters_and_spaces line).
Proof.
  intros Hlast.
  assert (last line ≠ Some 10) by (intros E; by rewrite E in Hlast).
  destruct (occurs (raw ":") line) eqn:Hcolon; cbn [negb].
  - f_equal. symmetry. unfold letters_and_spaces.
    apply occurs_elem, list_elem_of_In in Hcolon.
    destruct (forallb _ line) eqn:Hall; [|by rewrite andb_false_r].
    rewrite forallb_forall in Hall. by specialize (Hall _ Hcolon).
  - unfold re_match. rewrite compile_category. cbn [mbind outcome_bind].
    by rewrite category_match.
Qed.

Lemma strip_last s : fails is_space (last (strip s)).
Proof. destruct (strip_by_spec is_space s) as (? & ? & _ & _ & _ & _ & H); done. Qed.

Lemma strip_head s : fails is_space (head (strip s)).
Proof. destruct (strip_by_spec is_space s) as (? & ? & _ & _ & _ & H & _); done. Qed.

(** The loop body without the calls into [re]. *)
Lemma skills_step_eq skills current l :
  skills_step (skills, current) l
  = let line := strip l in
    if negb (nonempty line) then Returns (skills, current)
    else if letters_and_spaces line then Returns (<[line := []]> skills, Some line)
    else match current with
         | Some cur =>
             if nonempty cur then
               old ← getitem skills cur;
               Returns (<[cur := old ++ items_of line]> skills, current)
             else Returns (skills, current)
         | None => Returns (skills, current)
         end.
Proof.
  unfold skills_step. cbn zeta.
  destruct (nonempty (strip l)); cbn [negb]; [|done].
  rewrite heading_test by apply strip_last. reflexivity.
Qed.

Lemma for_each_app {S A} (body : S → A → outcome S) st (l1 l2 : list A) :
  for_each body st (l1 ++ l2) = st' ← for_each body st l1; for_each body st' l2.
Proof.
  revert st. induction l1 as [|x l1 IH]; intros st; [done|].
  cbn. destruct (body st x); cbn; [apply IH|done|done].
Qed.

Lemma split_on_no_sep sep s : Forall (λ w, sep ∉ w) (split_on sep s).
Proof.
  induction s as [|c s IH]; cbn.
  - constructor; [|constructor]. by intros ?%elem_of_nil.
  - destruct (c =? sep) eqn:E.
    + constructor; [|done]. by intros ?%elem_of_nil.
    + apply N.eqb_neq in E. destruct (split_on sep s) as [|w ws].
      * constructor; [|constructor].
        apply not_elem_of_cons. split; [done|apply not_elem_of_nil].
      * inversion IH; subst. constructor; [|done].
        apply not_elem_of_cons. split; done.
Qed.

Lemma split_on_id sep s : sep ∉ s → split_on sep s = [s].
Proof.
  induction s as [|c s IH]; [done|]. intros Hnot. cbn.
  destruct (c =? sep) eqn:E.
  - apply N.eqb_eq in E. set_solver.
  - rewrite IH; [done|set_solver].
Qed.

Lemma items_of_clean line : Forall clean_token (items_of line).
Proof.
  unfold items_of. apply Forall_fmap, Forall_forall. intros x Hx.
  apply list_elem_of_In, filter_In in Hx as [Hx Hnb].
  pose proof (split_on_no_sep 44 line) as Hsep. rewrite Forall_forall in Hsep.
  apply list_elem_of_In, Hsep in Hx.
  split; [by apply nonempty_true|]. split; [|split; [apply strip_head|apply strip_last]].
  intros Hc. apply Hx. eapply stripped_of_elem; [apply strip_by_spec|exact Hc].
Qed.

Lemma items_of_token t : clean_token t → items_of t = [t].
Proof.
  intros (Hne & Hsep & Hh & Hl). unfold items_of.
  assert (Hid : strip t = t) by (by apply strip_by_id).
  rewrite split_on_id by done. cbn. unfold nonblank. rewrite Hid.
  apply nonempty_true in Hne. rewrite Hne. cbn. by rewrite Hid.
Qed.

Lemma resplit_clean toks : Forall clean_token toks → toks ≫= items_of = toks.
Proof.
  induction 1 as [|t toks Ht _ IH]; [done|].
  cbn. by rewrite items_of_token, IH.
Qed.

Lemma skills_step_inv st l :
  skills_inv st → ∃ st', skills_step st l = Returns st' ∧ skills_inv st'.
Proof.
  destruct st as [skills current]. intros [Hcur Hall]. cbn in Hcur, Hall.
  rewrite skills_step_eq. cbn zeta.
  destruct (nonempty (strip l)); cbn [negb]; [|by eexists].
  destruct (letters_and_spaces (strip l)).
  - eexists. split; [done|]. split; cbn.
    + intros cur [= <-]. rewrite lookup_insert_eq. by eexists.
    + apply map_Forall_insert_2; [constructor|done].
  - destruct current as [cur|]; [|by eexists].
    destruct (nonempty cur); [|by eexists].
    destruct (Hcur cur eq_refl) as [old Hold].
    unfold getitem. rewrite Hold. cbn.
    eexists. split; [done|]. split; cbn.
    + intros ? [= <-]. rewrite lookup_insert_eq. by eexists.
    + apply map_Forall_insert_2; [|done].
      apply Forall_app. split; [exact (Hall _ _ Hold)|apply items_of_clean].
Qed.

Lemma skills_loop_inv lines st :
  skills_inv st →
  ∃ st', for_each skills_step st lines = Returns st' ∧ skills_inv st'.
Proof.
  revert st. induction lines as [|l lines IH]; intros st Hinv; [by eexists|].
  cbn. destruct (skills_step_inv st l Hinv) as (st1 & -> & Hinv1).
  cbn. by apply IH.
Qed.

Lemma skills_inv_init : skills_inv (∅, None).
Proof. split; [done|apply map_Forall_empty]. Qed.

(** C7.  [parse_skills] returns, and every list it returns holds clean
    tokens: none is empty, none has a comma, none starts or ends with
    white space.  Splitting each token on commas and trimming the pieces,
    as the loop body does, gives the list back. *)
Theorem skills_tokens_fixed_point (skills_text : str) :
  ∃ skills,
    parse_skills skills_text = Returns skills
    ∧ map_Forall (λ _ toks,
        Forall clean_token toks ∧ toks ≫= items_of = toks) skills.
Proof.
  unfold parse_skills.
  destruct (skills_loop_inv (splitlines skills_text) _ skills_inv_init)
    as ([skills current] & -> & _ & Hall).
  exists skills. split; [done|].
  intros k toks Hk. specialize (Hall k toks Hk). cbn in Hall.
  split; [done|by apply resplit_clean].
Qed.

Lemma letters_and_spaces_nonempty line :
  letters_and_spaces line = true → nonempty line = true.
Proof. unfold letters_and_spaces. by intros [? _]%andb_prop. Qed.

(** Under the category [name], lines that are not category names add their
    tokens to the list of [name]. *)
Lemma skills_block name block skills acc :
  letters_and_spaces name = true →
  skills_inv (skills, Some name) →
  skills !! name = Some acc →
  Forall (λ l, letters_and_spaces (strip l) = false) block →
  ∃ skills',
    for_each skills_step (skills, Some name) block = Returns (skills', Some name)
    ∧ skills_inv (skills', Some name)
    ∧ skills' !! name = Some (acc ++ (block ≫= (λ l, items_of (strip l)))).
Proof.
  intros Hname. revert skills acc.
  induction block as [|l block IH]; intros skills acc Hinv Hacc Hblock.
  - exists skills. by rewrite app_nil_r.
  - inversion Hblock as [|? ? Hl Hblock']; subst.
    destruct (skills_step_inv _ l Hinv) as (st1 & Hstep & Hinv1).
    cbn [for_each]. rewrite Hstep. cbn [mbind outcome_bind].
    rewrite skills_step_eq in Hstep. cbn zeta in Hstep. rewrite Hl in Hstep.
    rewrite (letters_and_spaces_nonempty _ Hname) in Hstep.
    unfold getitem in Hstep. rewrite Hacc in Hstep. cbn in Hstep.
    destruct (nonempty (strip l)) eqn:Hne; cbn [negb] in Hstep;
      injection Hstep as <-.
    + destruct (IH _ (acc ++ items_of (strip l)) Hinv1) as (skills' & -> & ? & Hs');
        [apply lookup_insert_eq|done|].
      exists skills'. rewrite Hs'. cbn [mbind list_bind]. by rewrite <- app_assoc.
    + destruct (IH _ acc Hinv1 Hacc Hblock') as (skills' & -> & ? & Hs').
      exists skills'. rewrite Hs'. cbn [mbind list_bind].
      destruct (strip l); [done|discriminate Hne].
Qed.

(** While the current category is another one, the list of [name] stays
    as it is, unless a line names [name] again. *)
Lemma skills_elsewhere name rest skills cur :
  cur ≠ name →
  skills_inv (skills, Some cur) →
  Forall (λ l, strip l ≠ name) rest →
  ∃ skills' current',
    for_each skills_step (skills, Some cur) rest = Returns (skills', current')
    ∧ skills' !! name = skills !! name.
Proof.
  revert skills cur. induction rest as [|l rest IH]; intros skills cur Hcur Hinv Hrest.
  - by exists skills, (Some cur).
  - inversion Hrest as [|? ? Hl Hrest']; subst.
    destruct (skills_step_inv _ l Hinv) as (st1 & Hstep & Hinv1).
    cbn [for_each]. rewrite Hstep. cbn [mbind outcome_bind].
    rewrite skills_step_eq in Hstep. cbn zeta in Hstep.
    destruct (nonempty (strip l)); cbn [negb] in Hstep.
    + destruct (letters_and_spaces (strip l)).
      * injection Hstep as <-.
        destruct (IH _ _ Hl Hinv1 Hrest') as (skills' & current' & -> & Hs').
        exists skills', current'. split; [done|]. rewrite Hs'.
        by apply lookup_insert_ne.
      * destruct (nonempty cur).
        -- destruct (getitem skills cur) as [old| |]; cbn in Hstep; [|done|done].
           injection Hstep as <-.
           destruct (IH _ _ Hcur Hinv1 Hrest') as (skills' & current' & -> & Hs').
           exists skills', current'. split; [done|]. rewrite Hs'.
           by apply lookup_insert_ne.
        -- injection Hstep as <-. by apply IH.
    + injection Hstep as <-. by apply IH.
Qed.

(** C10.  A category-name line binds its name to the empty list whatever
    the name was bound to.  So when the lines are [pre], a category-name
    line [cat], lines [block] that are not category names, and lines
    [rest] that open with another category name and never name [cat]
    again, the name is bound to the tokens of [block] alone: nothing that
    [pre] put under the name is left. *)
Theorem repeated_category_keeps_last (skills_text : str)
    (pre : list str) (cat : str) (block rest : list str) :
  splitlines skills_text = pre ++ cat :: block ++ rest →
  letters_and_spaces (strip cat) = true →
  Forall (λ l, letters_and_spaces (strip l) = false) block →
  (∀ l, head rest = Some l → letters_and_spaces (strip l) = true) →
  Forall (λ l, strip l ≠ strip cat) rest →
  (∀ skills current,
     skills_step (skills, current) cat
     = Returns (<[strip cat := []]> skills, Some (strip cat)))
  ∧ ∃ skills,
      parse_skills skills_text = Returns skills
      ∧ skills !! strip cat = Some (block ≫= (λ l, items_of (strip l))).
Proof.
  intros Hlines Hcat Hblock Hhead Hrest.
  assert (Hstep : ∀ skills current,
    skills_step (skills, current) cat
    = Returns (<[strip cat := []]> skills, Some (strip cat))).
  { intros. rewrite skills_step_eq. cbn zeta.
    by rewrite (letters_and_spaces_nonempty _ Hcat), Hcat. }
  split; [exact Hstep|].
  unfold parse_skills. rewrite Hlines, for_each_app.
  destruct (skills_loop_inv pre _ skills_inv_init) as ([s1 c1] & -> & Hinv1).
  cbn [mbind outcome_bind for_each]. rewrite Hstep. cbn [mbind outcome_bind].
  rewrite for_each_app.
  assert (Hinv2 : skills_inv (<[strip cat := []]> s1, Some (strip cat))).
  { destruct (skills_step_inv _ cat Hinv1) as (? & Heq & ?).
    rewrite Hstep in Heq. by injection Heq as <-. }
  destruct (skills_block (strip cat) block _ [] Hcat Hinv2 (lookup_insert_eq _ _ _) Hblock)
    as (s3 & -> & Hinv3 & Hs3).
  cbn [mbind outcome_bind]. cbn [app] in Hs3.
  destruct rest as [|l rest]; [by exists s3|].
  inversion Hrest as [|? ? Hl Hrest']; subst.
  specialize (Hhead l eq_refl).
  cbn [for_each]. rewrite skills_step_eq. cbn zeta.
  rewrite (letters_and_spaces_nonempty _ Hhead), Hhead. cbn [negb mbind outcome_bind].
  assert (Hinv4 : skills_inv (<[strip l := []]> s3, Some (strip l))).
  { destruct (skills_step_inv _ l Hinv3) as (? & Heq & ?).
    rewrite skills_step_eq in Heq. cbn zeta in Heq.
    rewrite (letters_and_spaces_nonempty _ Hhead), Hhead in Heq.
    by injection Heq as <-. }
  destruct (skills_elsewhere (strip cat) rest _ _ Hl Hinv4 Hrest')
    as (s5 & c5 & -> & Hs5).
  exists s5. split; [done|]. cbn [fst]. rewrite Hs5.
  by rewrite lookup_insert_ne.
Qed.

Example repeated_category_scenario :
  map_to_list <$>
    parse_skills (esc "Languages\nPython, Go\nTools\nGit, Docker\nLanguages\nC++")
  = Returns [(raw "Tools", [raw "Git"; raw "Docker"]); (raw "Languages", [raw "C++"])].
Proof. vm_compute. reflexivity. Qed.

End Skills.

(** ** Phone numbers *)

Section Phone.
Context {U : Unicode}.

Lemma compile_phone_regex : re_compile (raw "\b\d{10}\b") = Returns phone_regex.
Proof. reflexivity. Qed.

Lemma digit_word c : is_digit c = true → is_word c = true.
Proof.
  unfold is_digit, is_word. destruct (is_ascii c).
  - intros ->. by rewrite orb_true_r.
  - apply uni_decimal_alnum.
Qed.

Lemma forallb_head_last (p : char → bool) (ds : str) :
  forallb p ds = true → ds ≠ [] →
  ∃ a b, head ds = Some a ∧ last ds = Some b ∧ p a = true ∧ p b = true.
Proof.
  intros Hall Hne. rewrite forallb_forall in Hall.
  destruct ds as [|a ds]; [done|].
  destruct (last (a :: ds)) as [b|] eqn:Hb.
  - exists a, b. split; [done|]. split; [done|]. split.
    + apply Hall. by left.
    + apply Hall, list_elem_of_In, last_Some_elem_of, Hb.
  - by apply last_None in Hb.
Qed.

(** A match at the cursor is ten digits with no word character before the
    first and none after the last. *)
Lemma phone_here prev pos rest m :
  match_here false phone_regex prev pos rest = Some m
  ↔ ∃ ds post, rest = ds ++ post
      ∧ length ds = 10%nat ∧ forallb is_digit ds = true
      ∧ word_at prev = false ∧ word_at (head post) = false
      ∧ m = Match pos ds ∅.
Proof.
  unfold match_here, phone_regex. cbn [seq_of_list foldr rmatch].
  rewrite rep_exact. change (cset_mem false CDigit) with is_digit.
  cbn [at_holds accept].
  split.
  - destruct (xorb (word_at prev) (word_at (head rest))) eqn:Hb1; [|done].
    destruct (length (take 10 rest) =? 10)%nat eqn:Hlen; [|done].
    destruct (forallb is_digit (take 10 rest)) eqn:Hall; [|done].
    cbn [andb].
    destruct (xorb _ (word_at (head (drop 10 rest)))) eqn:Hb2; [|done].
    intros [= <-]. apply Nat.eqb_eq in Hlen.
    exists (take 10 rest), (drop 10 rest).
    destruct (forallb_head_last is_digit (take 10 rest) Hall) as (a & b & Ha & Hb & Hda & Hdb).
    { intros E. by rewrite E in Hlen. }
    assert (head rest = Some a) as Hhead.
    { rewrite <- (take_drop 10 rest). by destruct (take 10 rest). }
    rewrite Hhead in Hb1. cbn in Hb1. rewrite (digit_word _ Hda) in Hb1.
    unfold prev_of in Hb2. rewrite Hb in Hb2. cbn in Hb2.
    rewrite (digit_word _ Hdb) in Hb2.
    split; [by rewrite take_drop|]. split; [done|]. split; [done|].
    split; [by destruct (word_at prev)|].
    split; [by destruct (word_at (head (drop 10 rest)))|].
    f_equal. f_equal. lia.
  - intros (ds & post & -> & Hlen & Hall & Hprev & Hpost & ->).
    destruct (forallb_head_last is_digit ds Hall) as (a & b & Ha & Hb & Hda & Hdb).
    { intros ->. done. }
    assert (head (ds ++ post) = Some a) as ->.
    { by destruct ds. }
    rewrite take_app_length' by done. rewrite drop_app_length' by done.
    rewrite Hlen, Hall, Hprev. cbn. rewrite (digit_word _ Hda). cbn.
    unfold prev_of. rewrite Hb, Hpost. cbn. rewrite (digit_word _ Hdb). cbn.
    f_equal. f_equal. replace (pos + 10 - pos)%nat with 10%nat by lia.
    by rewrite take_app_length'.
Qed.

Lemma runs_at p run ds post :
  forallb p ds = true → fails p (head post) → reverse run ++ ds ≠ [] →
  reverse run ++ ds ∈ runs_from p run (ds ++ post).
Proof.
  revert run. induction ds as [|d ds IH]; intros run Hall Hpost Hne.
  - rewrite app_nil_r in *. cbn.
    destruct run as [|r run]; [by rewrite reverse_nil in Hne|].
    destruct post as [|c post]; [by left|].
    cbn in Hpost. cbn [app runs_from]. rewrite Hpost. by left.
  - cbn in Hall. apply andb_prop in Hall as [Hd Hall].
    cbn. rewrite Hd.
    replace (reverse run ++ d :: ds) with (reverse (d :: run) ++ ds)
      by (by rewrite reverse_cons, <- app_assoc).
    apply IH; [done|done|].
    rewrite reverse_cons. by destruct (reverse run).
Qed.

Lemma runs_skip p run pre rest x :
  pre ≠ [] → fails p (last pre) →
  x ∈ runs_from p [] rest → x ∈ runs_from p run (pre ++ rest).
Proof.
  revert run. induction pre as [|c pre IH]; intros run Hne Hlast Hx; [done|].
  destruct pre as [|c' pre].
  - cbn in Hlast. cbn. rewrite Hlast. destruct run; [done|by right].
  - cbn [app runs_from].
    assert (Hx' : ∀ run', x ∈ runs_from p run' ((c' :: pre) ++ rest)).
    { intros run'. by apply IH. }
    destruct (p c); [apply Hx'|].
    destruct run; [apply Hx'|right; apply Hx'].
Qed.

(** Ten digits that stand alone are one of the maximal runs of digits. *)
Lemma standalone_run pre ds post :
  standalone pre ds post → ds ∈ digit_runs (pre ++ ds ++ post).
Proof.
  intros (Hlen & Hall & Hpre & Hpost). unfold digit_runs.
  assert (Hin : ds ∈ runs_from is_digit [] (ds ++ post)).
  { apply (runs_at is_digit [] ds post); [done| |by destruct ds].
    destruct post as [|c post]; [done|]. cbn in *.
    destruct (is_digit c) eqn:E; [|done]. by rewrite (digit_word _ E) in Hpost. }
  destruct pre as [|c pre]; [done|].
  apply runs_skip; [done| |done].
  destruct (last (c :: pre)) as [b|]; [|done]. cbn in *.
  destruct (is_digit b) eqn:E; [|done]. by rewrite (digit_word _ E) in Hpre.
Qed.

(** C9.  The two examples come out as stated; a text whose runs of digits
    are all longer than ten gives the sentinel; and whatever is returned
    is either the sentinel, when no ten digits stand alone anywhere, or
    the first ten digits that do. *)
Theorem phone_first_standalone_run :
  extract_phone (raw "Call 9876543210 now") = Returns (raw "9876543210")
  ∧ extract_phone (raw "Call 98765432101 now") = Returns not_found
  ∧ (∀ text, Forall (λ r, (10 < length r)%nat) (digit_runs text) →
       extract_phone text = Returns not_found)
  ∧ (∀ text, ∃ r, extract_phone text = Returns r
       ∧ ((r = not_found
           ∧ ∀ pre ds post, text = pre ++ ds ++ post → ¬ standalone pre ds post)
          ∨ ∃ pre post, text = pre ++ r ++ post ∧ standalone pre r post
              ∧ ∀ pre' ds' post', text = pre' ++ ds' ++ post' →
                  standalone pre' ds' post' → (length pre ≤ length pre')%nat)).
Proof.
  assert (Hgen : ∀ text, ∃ r, extract_phone text = Returns r
       ∧ ((r = not_found
           ∧ ∀ pre ds post, text = pre ++ ds ++ post → ¬ standalone pre ds post)
          ∨ ∃ pre post, text = pre ++ r ++ post ∧ standalone pre r post
              ∧ ∀ pre' ds' post', text = pre' ++ ds' ++ post' →
                  standalone pre' ds' post' → (length pre ≤ length pre')%nat)).
  { intros text. unfold extract_phone, re_search. rewrite compile_phone_regex.
    cbn [mbind outcome_bind].
    pose proof (search_from_first false phone_regex None 0%nat text) as Hs.
    destruct (search_from false phone_regex None 0 text) as [m|].
    - destruct Hs as (pre & rest & -> & Hhere & Hfirst).
      apply phone_here in Hhere as (ds & post & -> & Hlen & Hall & Hprev & Hpost & ->).
      exists ds. split; [done|]. right. exists pre, post. split; [done|].
      split.
      { split; [done|]. split; [done|]. split; [|done].
        unfold prev_of in Hprev. by destruct (last pre). }
      intros pre' ds' post' Heq (Hlen' & Hall' & Hprev' & Hpost').
      destruct (decide (length pre' < length pre)%nat) as [Hlt|]; [|lia].
      specialize (Hfirst pre' (ds' ++ post') Heq Hlt).
      assert (match_here false phone_regex (prev_of None pre')
                (0 + length pre') (ds' ++ post')
              = Some (Match (0 + length pre') ds' ∅)) as Hm; [|congruence].
      apply phone_here. exists ds', post'.
      repeat (split; [done|]). split; [|done].
      unfold prev_of. by destruct (last pre').
    - exists not_found. split; [done|]. left. split; [done|].
      intros pre ds post -> (Hlen & Hall & Hprev & Hpost).
      specialize (Hs pre (ds ++ post) eq_refl).
      assert (match_here false phone_regex (prev_of None pre)
                (0 + length pre) (ds ++ post)
              = Some (Match (0 + length pre) ds ∅)) as Hm; [|congruence].
      apply phone_here. exists ds, post.
      repeat (split; [done|]). split; [|done].
      unfold prev_of. by destruct (last pre). }
  split; [vm_compute; reflexivity|]. split; [vm_compute; reflexivity|].
  split; [|exact Hgen].
  intros text Hruns.
  destruct (Hgen text) as (r & Hr & [[-> _]|(pre & post & -> & Hst & _)]); [done|].
  apply standalone_run in Hst as Hin.
  rewrite Forall_forall in Hruns. specialize (Hruns r Hin).
  destruct Hst as [Hlen _]. lia.
Qed.

End Phone.

(** ** The section pattern, compiled *)

Section SectionPattern.
Context {U : Unicode}.

Lemma plain_spec c :
  plain c = true →
  c ≠ 46 ∧ c ≠ 92 ∧ c ≠ 91 ∧ c ≠ 123 ∧ c ≠ 40 ∧ c ≠ 41 ∧ c ≠ 42 ∧ c ≠ 43
  ∧ c ≠ 63 ∧ c ≠ 94 ∧ c ≠ 36 ∧ c ≠ 124.
Proof.
  unfold plain, mem, special_chars. cbn -[N.eqb]. rewrite negb_true_iff.
  rewrite !orb_false_iff, !N.eqb_neq. tauto.
Qed.

Lemma lex_one_simple c s : simple c = true → lex_one c s = Returns (tok_of c, s).
Proof.
  unfold simple, tok_of. destruct (N.eqb_spec c 124) as [->|Hbar]; [done|].
  rewrite orb_false_r. intros Hp. apply plain_spec in Hp.
  unfold lex_one.
  repeat match goal with |- context [?a =? ?b] =>
    destruct (N.eqb_spec a b); [subst; tauto|] end.
  reflexivity.
Qed.

Lemma lex_simple s rest fuel :
  forallb simple s = true →
  lex (length s + fuel) (s ++ rest)
  = ts ← lex fuel rest; Returns ((tok_of <$> s) ++ ts).
Proof.
  induction s as [|c s IH]; intros Hs.
  - cbn. by destruct (lex fuel rest).
  - cbn in Hs. apply andb_prop in Hs as [Hc Hs].
    cbn [length Nat.add app lex]. rewrite (lex_one_simple _ _ Hc).
    cbn [mbind outcome_bind]. rewrite (IH Hs).
    by destruct (lex fuel rest).
Qed.

Lemma lex_section_head rest fuel :
  lex (7 + fuel) (raw "(.*?)(?=\n(?:" ++ rest)
  = ts ← lex fuel rest;
    Returns ([TOpen GCapture; TAtom CAny; TRepeat 0 None false; TClose;
              TOpen (GLookahead false); TAtom (CLit 10); TOpen GNonCapture] ++ ts).
Proof. eval_raw. cbn. by destruct (lex _ rest). Qed.

Lemma lex_section_tail :
  lex 10 (raw "|$))") = Returns [TBar; TAt AtEnd; TClose; TClose].
Proof. reflexivity. Qed.

Lemma parse_plain h ts f stack n :
  forallb plain h = true →
  parse ((tok_of <$> h) ++ ts) f stack n
  = parse ts (Frame (done f) (reverse (lit <$> h) ++ cur f)) stack n.
Proof.
  revert f. induction h as [|c h IH]; intros f Hh.
  - cbn. by destruct f.
  - cbn in Hh. apply andb_prop in Hh as [Hc Hh].
    apply plain_spec in Hc. cbn [fmap list_fmap app]. unfold tok_of at 1.
    destruct (N.eqb_spec c 124); [tauto|]. cbn [parse].
    rewrite (IH _ Hh). cbn [push done cur fmap list_fmap].
    by rewrite reverse_cons, <- app_assoc.
Qed.

(** The stop headings joined by bars, then the bar before [$]: each
    heading has become an alternative of the open group. *)
Lemma parse_join stops ts d stack n :
  Forall (λ s, forallb plain s = true) stops →
  parse ((tok_of <$> join (raw "|") stops) ++ TBar :: ts) (Frame d []) stack n
  = parse ts (Frame (reverse (lit_seq <$> branches stops) ++ d) []) stack n.
Proof.
  revert d. induction stops as [|s stops IH]; intros d Hstops; [done|].
  inversion Hstops as [|? ? Hs Hstops']; subst.
  destruct stops as [|s' stops].
  - cbn [join branches]. rewrite (parse_plain _ _ _ _ _ Hs). cbn [parse cur done].
    rewrite app_nil_r, reverse_involutive. reflexivity.
  - change (join (raw "|") (s :: s' :: stops))
      with (s ++ 124 :: join (raw "|") (s' :: stops)).
    rewrite fmap_app, <- app_assoc. rewrite (parse_plain _ _ _ _ _ Hs).
    cbn [fmap list_fmap app tok_of parse cur done].
    change (tok_of 124) with TBar. cbn [parse cur done].
    rewrite app_nil_r, reverse_involutive.
    rewrite (IH _ Hstops'). cbn [branches fmap list_fmap].
    f_equal. f_equal. rewrite (reverse_cons _ (lit_seq s)), <- app_assoc.
    reflexivity.
Qed.

Lemma upper_app s t : upper (s ++ t) = upper s ++ upper t.
Proof. unfold upper. apply bind_app. Qed.

Lemma upper_join stops :
  upper (join (raw "|") stops) = join (raw "|") (upper <$> stops).
Proof.
  induction stops as [|s stops IH]; [done|].
  destruct stops as [|s' stops]; [done|].
  change (join (raw "|") (s :: s' :: stops))
    with (s ++ raw "|" ++ join (raw "|") (s' :: stops)).
  rewrite !upper_app, IH. reflexivity.
Qed.

Lemma simple_join stops :
  Forall (λ s, forallb plain s = true) stops →
  forallb simple (join (raw "|") stops) = true.
Proof.
  assert (Hps : ∀ s, forallb plain s = true → forallb simple s = true).
  { intros s. rewrite !forallb_forall. intros H c Hc. unfold simple.
    by rewrite (H c Hc). }
  induction 1 as [|s stops Hs Hstops IH]; [done|].
  destruct stops as [|s' stops]; [by apply Hps|].
  change (join (raw "|") (s :: s' :: stops))
    with (s ++ 124 :: join (raw "|") (s' :: stops)).
  rewrite forallb_app. cbn [forallb]. rewrite (Hps _ Hs), IH. reflexivity.
Qed.

(** For a heading and stop headings whose upper case is free of special
    characters, the pattern compiles to [section_regex]. *)
Lemma compile_section_pattern section stop_sections :
  forallb plain (upper section) = true →
  Forall (λ s, forallb plain (upper s) = true) stop_sections →
  re_compile (section_pattern section stop_sections)
  = Returns (section_regex (upper section) (upper <$> stop_sections)).
Proof.
  intros Hh Hstops.
  assert (Hstops' : Forall (λ s, forallb plain s = true) (upper <$> stop_sections)).
  { by apply Forall_fmap. }
  assert (Hhs : forallb simple (upper section) = true).
  { rewrite forallb_forall in *. intros c Hc. unfold simple. by rewrite (Hh c Hc). }
  unfold re_compile, section_pattern. rewrite upper_join.
  set (h := upper section). set (j := join (raw "|") (upper <$> stop_sections)).
  rewrite !length_app.
  change (length (raw "(.*?)(?=\n(?:")) with 13%nat.
  change (length (raw "|$))")) with 4%nat.
  replace (13 + (length j + 4))%nat with (7 + (length j + 10))%nat by lia.
  rewrite (lex_simple h _ _ Hhs), lex_section_head.
  rewrite (lex_simple j _ _ (simple_join _ Hstops')), lex_section_tail.
  cbn [mbind outcome_bind].
  rewrite (parse_plain h _ _ _ _ Hh). cbn [app parse push cur done wrap].
  rewrite (parse_join _ _ _ _ _ Hstops'). cbn [parse push cur done wrap].
  unfold section_regex, close_frame, push. cbn [cur done]. f_equal.
  repeat first
    [ rewrite app_nil_r | rewrite reverse_cons | rewrite reverse_nil
    | rewrite reverse_involutive | progress cbn [app alt_of_list] ].
  rewrite <- app_assoc. reflexivity.
Qed.

End SectionPattern.

(** ** Section windows *)

Section SectionWindow.
Context {U : Unicode}.

Lemma first_along_ext {A} (f g : option char → nat → str → option A) prev pos rest :
  (∀ p n s, f p n s = g p n s) →
  first_along f prev pos rest = first_along g prev pos rest.
Proof.
  intros Hfg. revert prev pos. induction rest as [|c rest IH]; intros prev pos.
  - cbn. by rewrite Hfg.
  - cbn. by rewrite Hfg, IH.
Qed.

(** The lookahead of the section pattern holds where [terminator] does,
    and sets no group. *)
Lemma look_terminator stops p n s caps k :
  rmatch true
    (RLook false (seq_of_list
       [lit 10; RSub None (alt_of_list ((lit_seq <$> stops)
                                        ++ [seq_of_list [RAt AtEnd]]))]))
    p n s caps k
  = if terminator stops s then k p n s caps else None.
Proof.
  cbn [rmatch seq_of_list foldr lit cset_mem].
  destruct s as [|c s]; [done|]. cbn [terminator].
  destruct (c =? 10); [|done]. cbn [andb].
  pose proof (rmatch_branches true stops (Some c) (S n) s caps) as Hb.
  cbn zeta in Hb. unfold accept in Hb. cbn [seq_of_list foldr] in Hb.
  destruct (existsb (λ b, startswith b s) stops || at_eol s).
  - destruct Hb as [e ->]. reflexivity.
  - by rewrite Hb.
Qed.

(** Group 1 of the section pattern, then whatever follows it. *)
Lemma rmatch_window l p n s c k :
  rmatch true
    (seq_of_list [RSub (Some 1%nat) (seq_of_list [RRep false 0 None CAny]); l])
    p n s c k
  = rep_match (cset_mem true CAny) false 0 None p n s c
      (λ p' n' s' c', rmatch true l p' n' s' (<[1%nat := take (n' - n) s]> c') k).
Proof. reflexivity. Qed.

(** Where the section pattern matches at the cursor: the heading is
    there, and group 1 runs to the first terminator after it. *)
Lemma section_here h stops prev pos rest :
  match_here true (section_regex h stops) prev pos rest
  = if startswith h rest then
      match
        first_along
          (λ _ n s,
             if terminator (branches stops) s
             then Some (n, <[1%nat := take (n - (pos + length h)) (drop (length h) rest)]>
                             (∅ : groups))
             else None)
          (prev_of prev h) (pos + length h) (drop (length h) rest)
      with
      | Some (e, caps) => Some (Match pos (take (e - pos) rest) caps)
      | None => None
      end
    else None.
Proof.
  unfold match_here, section_regex. rewrite rmatch_lits.
  destruct (startswith h rest); [|done].
  rewrite rmatch_window, lazy_any_along.
  erewrite first_along_ext; [reflexivity|].
  intros p n s. cbn beta. rewrite look_terminator.
  destruct (terminator (branches stops) s); reflexivity.
Qed.

Lemma startswith_app h s : startswith h s = true → s = h ++ drop (length h) s.
Proof.
  revert s. induction h as [|a h IH]; intros [|b s]; cbn; try done.
  intros [Hab Hs]%andb_prop. apply N.eqb_eq in Hab as ->. f_equal. by apply IH.
Qed.

Lemma startswith_here h s : startswith h (h ++ s) = true.
Proof. induction h as [|a h IH]; [done|]. cbn. by rewrite N.eqb_refl, IH. Qed.

Lemma occurs_app h pre post : startswith h post = true → occurs h (pre ++ post) = true.
Proof.
  intros Hs. induction pre as [|c pre IH]; cbn.
  - destruct post; cbn; by rewrite Hs.
  - by rewrite IH, orb_true_r.
Qed.

(** [find] gives the first cursor at which the needle starts. *)
Lemma find_first h pre post :
  startswith h post = true →
  (∀ pre' post', pre ++ post = pre' ++ post' → (length pre' < length pre)%nat →
     startswith h post' = false) →
  find h (pre ++ post) = Some (length pre).
Proof.
  intros Hs. induction pre as [|c pre IH]; intros Hfirst.
  - cbn. destruct post; cbn; by rewrite Hs.
  - cbn [app find]. rewrite (Hfirst [] (c :: pre ++ post)); [|done|cbn; lia].
    rewrite IH; [done|]. intros pre' post' Heq Hlen.
    apply (Hfirst (c :: pre') post'); [cbn; by f_equal|cbn; lia].
Qed.

Lemma find_split h text i :
  find h text = Some i →
  ∃ pre post, text = pre ++ post ∧ length pre = i ∧ startswith h post = true.
Proof.
  revert i. induction text as [|c text IH]; intros i; cbn.
  - destruct (startswith h []) eqn:E; [|done]. intros [= <-]. by exists [], [].
  - destruct (startswith h (c :: text)) eqn:E.
    + intros [= <-]. by exists [], (c :: text).
    + destruct (find h text) as [j|]; [|done]. intros [= <-].
      destruct (IH j eq_refl) as (pre & post & -> & <- & Hs).
      by exists (c :: pre), post.
Qed.

(** What a search for the section pattern finds: the first occurrence of
    the heading, and after it the shortest content that a terminator
    follows. *)
Lemma section_search h stops text :
  match search_from true (section_regex h stops) None 0 text with
  | Some m =>
      ∃ pre content tail,
        text = pre ++ h ++ content ++ tail
        ∧ find h text = Some (length pre)
        ∧ terminator (branches stops) tail = true
        ∧ (∀ content' tail', content ++ tail = content' ++ tail' →
             (length content' < length content)%nat →
             terminator (branches stops) tail' = false)
        ∧ group m 1 = Some content
  | None =>
      ∀ pre content tail, text = pre ++ h ++ content ++ tail →
        terminator (branches stops) tail = false
  end.
Proof.
  pose proof (search_from_first true (section_regex h stops) None 0%nat text) as Hs.
  destruct (search_from true (section_regex h stops) None 0 text) as [m|].
  - destruct Hs as (pre & post & -> & Hhere & Hfirst).
    rewrite section_here in Hhere.
    destruct (startswith h post) eqn:Hh; [|done].
    apply startswith_app in Hh as Hpost.
    set (body := drop (length h) post) in *.
    match type of Hhere with context [first_along ?f ?p ?n ?s] =>
      pose proof (first_along_spec f p n s) as Hfa;
      destruct (first_along f p n s) as [[e caps]|]; [|done] end.
    destruct Hfa as (content & tail & Hbody & Hterm & Hshort).
    destruct (terminator (branches stops) tail) eqn:Ht; [|done].
    injection Hterm as <- <-. injection Hhere as <-.
    exists pre, content, tail. rewrite Hpost, Hbody.
    split; [done|]. split; [|split; [done|split]].
    + apply find_first; [apply startswith_here|].
      intros pre' post' Heq Hlen.
      destruct (startswith h post') eqn:Hh'; [exfalso|done].
      rewrite <- Hbody, <- Hpost in Heq.
      specialize (Hfirst pre' post' Heq Hlen). rewrite section_here, Hh' in Hfirst.
      match type of Hfirst with context [first_along ?f ?p ?n ?s] =>
        pose proof (first_along_spec f p n s) as Hfa';
        destruct (first_along f p n s) as [[e' caps']|]; [done|] end.
      apply startswith_app in Hh' as Hpost'.
      rewrite Hpost, Hbody, Hpost' in Heq.
      rewrite !app_assoc in Heq.
      apply app_eq_inv in Heq as [(k & _ & Hk)|(k & Hk & _)].
      * specialize (Hfa' k tail Hk). cbn beta in Hfa'.
        by rewrite Ht in Hfa'.
      * apply (f_equal length) in Hk. rewrite !length_app in Hk. lia.
    + intros content' tail' Heq Hlen.
      rewrite <- Hbody in Heq. specialize (Hshort content' tail' Heq Hlen).
      cbn beta in Hshort. by destruct (terminator (branches stops) tail').
    + unfold group. cbn [m_groups]. rewrite lookup_insert_eq. f_equal.
      replace (_ - _)%nat with (length content) by lia.
      by rewrite take_app_length.
  - intros pre content tail ->.
    specialize (Hs pre (h ++ content ++ tail) eq_refl).
    rewrite section_here, startswith_here in Hs.
    match type of Hs with context [first_along ?f ?p ?n ?s] =>
      pose proof (first_along_spec f p n s) as Hfa;
      destruct (first_along f p n s) as [[e' caps']|]; [done|] end.
    rewrite drop_app_length in Hfa.
    specialize (Hfa content tail eq_refl). cbn beta in Hfa.
    by destruct (terminator (branches stops) tail).
Qed.

End SectionWindow.

(** ** extract_section *)

Section ExtractSection.
Context {U : Unicode}.
Implicit Types (text section : str) (stop_sections : list str).

Lemma extract_section_eq text section stop_sections :
  plain_heading section → Forall plain_heading stop_sections →
  extract_section text section stop_sections
  = match search_from true
            (section_regex (upper section) (upper <$> stop_sections)) None 0 text with
    | Some m => g ← attr (group m 1); Returns (strip g)
    | None => Returns not_found
    end.
Proof.
  intros Hh Hs. unfold extract_section, re_search.
  by rewrite compile_section_pattern.
Qed.


Lemma prefix_unique (pre pre' post post' : str) :
  pre ++ post = pre' ++ post' → length pre = length pre' →
  pre = pre' ∧ post = post'.
Proof. intros Heq Hlen. by apply app_inj_1. Qed.




Lemma stop_line_false stops s :
  stop_line stops s = false →
  ∀ content tail, s = content ++ 10 :: tail →
    existsb (λ b, startswith b tail) stops = false.
Proof.
  intros Hs content. revert s Hs.
  induction content as [|c content IH]; intros s Hs tail ->;
    cbn [app stop_line] in Hs.
  - apply orb_false_elim in Hs as [Hs _]. by rewrite N.eqb_refl in Hs.
  - apply orb_false_elim in Hs as [_ Hs]. by apply (IH _ Hs).
Qed.

Lemma at_eol_space tail : at_eol tail = true → forallb is_space tail = true.
Proof.
  destruct tail as [|c [|]]; cbn; try done.
  intros ->%N.eqb_eq. reflexivity.
Qed.

(** C2, as the code has it.  Take a heading and at least one stop heading,
    all free of special characters, and a text that ends in a newline
    after the first occurrence of the upper-cased heading.  If no newline
    after that occurrence is followed by an upper-cased stop heading, the
    result is everything after the occurrence, trimmed. *)
Theorem section_runs_to_end_of_text text section stop_sections pre body :
  plain_heading section → Forall plain_heading stop_sections →
  stop_sections ≠ [] →
  text = pre ++ upper section ++ body ++ [10] →
  find (upper section) text = Some (length pre) →
  stop_line (upper <$> stop_sections) (body ++ [10]) = false →
  extract_section text section stop_sections = Returns (strip (body ++ [10])).
Proof.
  intros Hh Hs Hne Htext Hfind Hnostop.
  rewrite (extract_section_eq _ _ _ Hh Hs).
  pose proof (section_search (upper section) (upper <$> stop_sections) text) as Hm.
  assert (Hbr : branches (upper <$> stop_sections) = upper <$> stop_sections).
  { by destruct stop_sections. }
  rewrite Hbr in Hm.
  destruct (search_from true _ None 0 text) as [m|].
  - destruct Hm as (pre' & content & tail & Htext' & Hfind' & Hterm & _ & Hg).
    rewrite Hg. cbn [attr mbind outcome_bind]. f_equal.
    rewrite Hfind in Hfind'. injection Hfind' as Hlen.
    rewrite Htext in Htext'.
    apply prefix_unique in Htext' as [_ Hbody]; [|done].
    apply app_inv_head in Hbody. rewrite Hbody.
    destruct tail as [|c tail]; [done|]. cbn [terminator] in Hterm.
    apply andb_prop in Hterm as [->%N.eqb_eq Hterm].
    rewrite (stop_line_false _ _ Hnostop _ _ Hbody) in Hterm.
    cbn [orb] in Hterm. symmetry. apply strip_by_app_all.
    cbn [forallb]. by rewrite (at_eol_space _ Hterm).
  - specialize (Hm pre body [10]). rewrite Htext in Hm.
    specialize (Hm eq_refl). cbn [terminator at_eol] in Hm.
    by rewrite orb_true_r in Hm.
Qed.

End ExtractSection.

(** ** Every field extractor returns *)

Section Totality.
Context {U : Unicode}.

(** What a quantified character returns, the rest of the pattern returned
    at some cursor. *)
Lemma rep_match_result dotall cs greedy lo hi prev pos rest caps k res :
  rep_match (cset_mem dotall cs) greedy lo hi prev pos rest caps k = Some res →
  ∃ prev' pos' rest', k prev' pos' rest' caps = Some res.
Proof.
  revert lo hi prev pos. induction rest as [|c rest IH]; intros lo hi prev pos;
    rewrite rep_match_eq; cbn zeta.
  - destruct hi as [[|n]|], lo, greedy; unfold orelse;
      repeat match goal with
      | |- context [match ?x with Some _ => _ | None => _ end] => destruct x eqn:?
      end;
      try done; intros Hres; try (injection Hres as <-);
      eexists _, _, _; eassumption.
  - destruct hi as [[|n]|], (cset_mem dotall cs c), lo, greedy; unfold orelse;
      cbn [pred fmap option_fmap option_map];
      repeat match goal with
      | |- context [match ?x with Some _ => _ | None => _ end] => destruct x eqn:?
      end;
      try done; intros Hres; try (injection Hres as <-);
      first [eapply IH; eassumption | eexists _, _, _; eassumption].
Qed.

Lemma compile_languages_regex :
  re_compile (raw "LANGUAGES\n([A-Za-z, ]+)") = Returns languages_regex.
Proof. reflexivity. Qed.

(** Group 1 takes part in every match of the languages pattern. *)
Lemma languages_group prev pos rest m :
  match_here false languages_regex prev pos rest = Some m → is_Some (group m 1).
Proof.
  unfold match_here, languages_regex. rewrite rmatch_lits.
  destruct (startswith _ rest); [|done].
  cbn [seq_of_list foldr rmatch lit].
  destruct (drop _ rest) as [|c rest']; [done|].
  destruct (cset_mem false (CLit 10) c); [|done].
  match goal with |- context [rep_match ?ok ?g ?lo ?hi ?p ?n ?s ?c ?k] =>
    destruct (rep_match ok g lo hi p n s c k) as [[e caps]|] eqn:E; [|done] end.
  apply rep_match_result in E as (p' & n' & s' & E). cbn in E.
  injection E as <- <-. intros [= <-]. unfold group. cbn [m_groups].
  rewrite lookup_insert_eq. by eexists.
Qed.

Lemma skills_without_category lines :
  Forall (λ l, letters_and_spaces (strip l) = false) lines →
  for_each skills_step (∅, None) lines = Returns (∅, None).
Proof.
  induction 1 as [|l lines Hl _ IH]; [done|].
  cbn [for_each]. rewrite skills_step_eq. cbn zeta. rewrite Hl.
  destruct (nonempty (strip l)); cbn [negb mbind outcome_bind]; exact IH.
Qed.

Lemma education_without_trigger lines :
  Forall (λ l, trigger l = None) lines →
  foldl edu_step (Edu [] [] [] None) lines = Edu [] [] [] None.
Proof.
  induction 1 as [|l lines Hl _ IH]; [done|].
  cbn [foldl]. unfold edu_step at 2. rewrite Hl. cbn. exact IH.
Qed.

(** C5, as the code has it.  On every text each extractor with a fixed
    pattern returns, and returns its sentinel or default when nothing
    matches; [extract_section] does so for every heading and stop headings
    that are free of special characters. *)
Theorem field_extractors_return (text : str) :
  (∃ v, extract_name text = Returns v
     ∧ (re_match (raw "^[A-Za-z ]+") text = Returns None → v = not_found))
  ∧ (∃ v, extract_email text = Returns v
     ∧ (re_search (raw "[\w\.-]+@[\w\.-]+") text false = Returns None → v = not_found))
  ∧ (∃ v, extract_phone text = Returns v
     ∧ (re_search (raw "\b\d{10}\b") text false = Returns None → v = not_found))
  ∧ (∃ v, extract_location text = Returns v
     ∧ (re_search (raw "\bRajahmundry.*") text false = Returns None → v = not_found))
  ∧ (∃ v, extract_languages text = Returns v
     ∧ (re_search (raw "LANGUAGES\n([A-Za-z, ]+)") text false = Returns None →
        v = [not_found]))
  ∧ (∃ v, extract_certificates text = Returns v
     ∧ (Forall (λ l, nonblank l = false) (splitlines text) → v = []))
  ∧ (∃ v, parse_skills text = Returns v
     ∧ (Forall (λ l, letters_and_spaces (strip l) = false) (splitlines text) → v = ∅))
  ∧ (∃ v, parse_education text = Returns v
     ∧ (Forall (λ l, trigger l = None) (edu_lines text) → v = ([], [], [])))
  ∧ (∀ section stop_sections,
       plain_heading section → Forall plain_heading stop_sections →
       ∃ v, extract_section text section stop_sections = Returns v
         ∧ (re_search (section_pattern section stop_sections) text true = Returns None →
            v = not_found)).
Proof.
  repeat apply conj.
  - unfold extract_name, re_match. eval_compile. cbn [mbind outcome_bind].
    destruct (match_here false _ None 0 text); (eexists; split; [done|done]).
  - unfold extract_email, re_search. eval_compile. cbn [mbind outcome_bind].
    destruct (search_from false _ None 0 text); (eexists; split; [done|done]).
  - unfold extract_phone, re_search. eval_compile. cbn [mbind outcome_bind].
    destruct (search_from false _ None 0 text); (eexists; split; [done|done]).
  - unfold extract_location, re_search. eval_compile. cbn [mbind outcome_bind].
    destruct (search_from false _ None 0 text); (eexists; split; [done|done]).
  - unfold extract_languages, re_search. rewrite compile_languages_regex.
    cbn [mbind outcome_bind].
    pose proof (search_from_first false languages_regex None 0%nat text) as Hs.
    destruct (search_from false languages_regex None 0 text) as [m|].
    + destruct Hs as (pre & post & _ & Hhere & _).
      destruct (languages_group _ _ _ _ Hhere) as [g ->].
      eexists. split; [done|done].
    + eexists. split; [done|done].
  - eexists. split; [done|]. intros Hall. unfold extract_certificates in *.
    apply filter_nil_iff in Hall. by rewrite Hall.
  - destruct (skills_loop_inv (splitlines text) _ skills_inv_init)
      as ([skills current] & Heq & _).
    unfold parse_skills. rewrite Heq. eexists. split; [done|].
    intros Hall. rewrite (skills_without_category _ Hall) in Heq.
    by injection Heq as <- <-.
  - eexists. split; [done|]. intros Hall.
    by rewrite (education_without_trigger _ Hall).
  - intros section stop_sections Hh Hs. unfold extract_section, re_search.
    rewrite (compile_section_pattern _ _ Hh Hs). cbn [mbind outcome_bind].
    pose proof (section_search (upper section) (upper <$> stop_sections) text) as Hm.
    destruct (search_from true _ None 0 text) as [m|].
    + destruct Hm as (? & content & ? & _ & _ & _ & _ & ->).
      eexists. split; [done|done].
    + eexists. split; [done|done].
Qed.

End Totality.

(** ** More on strings *)

Section MoreStrings.

Lemma join_split sep (s : str) : join [sep] (split_on sep s) = s.
Proof.
  induction s as [|c s IH]; [done|].
  cbn [split_on]. destruct (N.eqb_spec c sep) as [->|Hc].
  - destruct (split_on sep s) as [|w ws] eqn:E.
    + by destruct s; cbn in E; [|destruct (_ =? _), (split_on _ _)].
    + cbn [join]. cbn [join] in IH. by rewrite IH.
  - destruct (split_on sep s) as [|w ws] eqn:E.
    + by destruct s; cbn in E; [|destruct (_ =? _), (split_on _ _)].
    + rewrite <- IH. by destruct ws.
Qed.

Lemma split_on_nonempty sep (s : str) : split_on sep s ≠ [].
Proof.
  destruct s as [|c s]; [done|]. cbn.
  by destruct (c =? sep), (split_on sep s).
Qed.

Lemma strip_by_nil_iff (p : char → bool) (s : str) :
  strip_by p s = [] ↔ forallb p s = true.
Proof.
  split.
  - intros Hnil. destruct (strip_by_spec p s) as (pre & post & -> & Hpre & Hpost & _).
    rewrite Hnil. cbn. by rewrite forallb_app, Hpre, Hpost.
  - intros Hall. unfold strip_by, lstrip_by.
    rewrite <- (app_nil_r s), drop_while_app_all by done. done.
Qed.

Lemma occurs_split (h s : str) :
  occurs h s = true ↔ ∃ pre post, s = pre ++ h ++ post.
Proof.
  split.
  - induction s as [|c s IH]; cbn [occurs].
    + rewrite orb_false_r. intros Hs%startswith_app. by exists [], (drop (length h) []).
    + intros [Hs%startswith_app|Ho]%orb_prop.
      * by exists [], (drop (length h) (c :: s)).
      * destruct (IH Ho) as (pre & post & ->). by exists (c :: pre), post.
  - intros (pre & post & ->). apply occurs_app, startswith_here.
Qed.

Lemma find_none (h s : str) : find h s = None ↔ occurs h s = false.
Proof.
  induction s as [|c s IH]; cbn [find occurs].
  - destruct (startswith h []); cbn; split; done.
  - destruct (startswith h (c :: s)); cbn [orb]; [split; done|].
    rewrite <- IH. destruct (find h s); cbn; split; done.
Qed.

Lemma take_while_app_stop {A} (p : A → bool) (run rest : list A) :
  forallb p run = true → fails p (head rest) →
  take_while p (run ++ rest) = run.
Proof.
  intros Hrun Hrest. induction run as [|c run IH]; cbn in *.
  - destruct rest as [|c rest]; [done|]. cbn in *. by rewrite Hrest.
  - apply andb_prop in Hrun as [-> Hrun]. f_equal. by apply IH.
Qed.

Lemma drop_while_head_eq {A} (p : A → bool) (s : list A) :
  head (drop_while p s) = head (drop (length (take_while p s)) s).
Proof.
  induction s as [|c s IH]; [done|]. cbn. destruct (p c); [done|]. done.
Qed.

Lemma drop_take_while {A} (p : A → bool) (s : list A) :
  drop (length (take_while p s)) s = drop_while p s.
Proof.
  induction s as [|c s IH]; [done|]. cbn. destruct (p c); [done|]. done.
Qed.

End MoreStrings.

(** ** The text of a file *)

Section FileText.

Lemma extract_text_from (acc : str) (file_stream : list pdf_page) :
  foldl (λ text pg, text ++ pg_text pg) acc file_stream
  = acc ++ concat (pg_text <$> file_stream).
Proof.
  revert acc. induction file_stream as [|pg ps IH]; intros acc; cbn.
  - by rewrite app_nil_r.
  - by rewrite IH, <- app_assoc.
Qed.

(** X15.  The text is the page texts in page order with nothing put between
    them: the text of two files laid end to end is the two texts end to
    end, every page's text is a piece of the whole, and a word cut by a
    page break is whole again. *)
Theorem text_is_pages_in_order (front back : list pdf_page) :
  extract_text_from_pdf (front ++ back)
  = extract_text_from_pdf front ++ extract_text_from_pdf back
  ∧ extract_text_from_pdf [] = []
  ∧ (∀ pg h, pg ∈ front → occurs h (pg_text pg) = true →
       occurs h (extract_text_from_pdf front) = true)
  ∧ (∀ a b p q,
       extract_text_from_pdf [PdfPage a p; PdfPage b q] = a ++ b).
Proof.
  unfold extract_text_from_pdf. split; [|split; [done|split]].
  - rewrite !extract_text_from, fmap_app, concat_app. done.
  - intros pg h [i Hi]%list_elem_of_lookup
      (pre & post & Hpg)%occurs_split.
    apply occurs_split.
    rewrite <- (take_drop_middle _ _ _ Hi), !extract_text_from, fmap_app, concat_app.
    cbn. rewrite Hpg.
    exists (concat (pg_text <$> take i front) ++ pre),
      (post ++ concat (pg_text <$> drop (S i) front)).
    by rewrite <- !app_assoc.
  - done.
Qed.

End FileText.

(** ** The style-aware segmenter, continued *)

Section MoreBoldLines.
Context {U : Unicode}.
Implicit Types (doc : document) (sp : span) (section_name : str)
  (stop_words : list str).

Lemma land_two (f : Z) :
  (Z.land f 2 =? 0)%Z = negb (Z.testbit f 1).
Proof.
  destruct (Z.testbit f 1) eqn:Hb; cbn [negb].
  - apply Z.eqb_neq. intros H0.
    assert (Z.testbit (Z.land f 2) 1 = true) as Ht.
    { rewrite Z.land_spec, Hb. done. }
    rewrite H0 in Ht. done.
  - apply Z.eqb_eq. apply Z.bits_inj'. intros n Hn.
    rewrite Z.land_spec, Z.bits_0.
    destruct (Z.eq_dec n 1%Z) as [->|Hne].
    + by rewrite Hb.
    + change 2%Z with (2 ^ 1)%Z. rewrite Z.pow2_bits_false by done.
      apply andb_false_r.
Qed.

(** X7.  The style test reads the font name without regard to case and, of the
    flags, the bit of value 2 alone; a span without flags passes on its font
    name only. *)
Theorem bold_flag_is_bit_one sp :
  is_bold sp
  = occurs (raw "bold") (lower (sp_font sp))
    || match sp_flags sp with
       | Some f => Z.testbit f 1
       | None => false
       end.
Proof.
  unfold is_bold. rewrite land_two, negb_involutive.
  by destruct (sp_flags sp).
Qed.

(** The loop body on a list of spans, blank ones left out. *)
Lemma scan_spans_visible section_name stop_words st sps :
  foldl (span_step section_name stop_words) st sps
  = foldl (span_step section_name stop_words) st (List.filter visible sps).
Proof.
  revert st. induction sps as [|sp sps IH]; intros st; [done|].
  cbn [foldl List.filter]. unfold visible at 1, nonblank.
  destruct (nonempty (strip (sp_text sp))) eqn:Hne.
  - cbn [foldl]. apply IH.
  - rewrite <- IH. f_equal. unfold span_step. destruct st. by rewrite Hne.
Qed.

(** X6.  Two files with the same non-blank spans in reading order give the
    same list, however the spans are laid out in lines, blocks and
    pages. *)
Theorem bold_lines_ignore_layout doc doc' section_name stop_words :
  List.filter visible (all_spans doc) = List.filter visible (all_spans doc') →
  extract_bold_lines_from_section doc section_name stop_words
  = extract_bold_lines_from_section doc' section_name stop_words.
Proof.
  intros Heq. unfold extract_bold_lines_from_section.
  rewrite !scan_document_spans. unfold scan_spans.
  rewrite (scan_spans_visible _ _ _ (all_spans doc)),
    (scan_spans_visible _ _ _ (all_spans doc')), Heq. done.
Qed.

(** Before a heading span has been seen nothing is collected. *)
Lemma scan_spans_outside section_name stop_words sps :
  Forall (λ sp, hits_section section_name (strip (sp_text sp)) = false) sps →
  scan_spans section_name stop_words sps = ([], false).
Proof.
  unfold scan_spans.
  induction sps as [|sp sps IH] using rev_ind; intros Hall; [done|].
  apply Forall_app in Hall as [Hall Hsp]. apply Forall_inv in Hsp.
  rewrite foldl_app. rewrite IH by done. cbn [foldl]. unfold span_step. rewrite Hsp.
  destruct (nonempty _); cbn [negb]; [|done].
  by destruct (hits_stop _ _).
Qed.

(** X5.  When no span contains the heading, whatever its style, the result is
    the fallback message: a section is entered by a heading span only. *)
Theorem no_heading_span_gives_fallback doc section_name stop_words :
  Forall (λ sp, hits_section section_name (strip (sp_text sp)) = false)
    (all_spans doc) →
  extract_bold_lines_from_section doc section_name stop_words
  = [no_bold_lines section_name].
Proof.
  intros Hall. unfold extract_bold_lines_from_section.
  rewrite scan_document_spans. rewrite scan_spans_outside by done. done.
Qed.

(** The texts a run of the loop body may append: the trimmed texts of the
    non-blank bold spans, in order. *)
Lemma scan_spans_sublist section_name stop_words sps :
  (scan_spans section_name stop_words sps).1
  `sublist_of` (λ sp, strip (sp_text sp))
                 <$> List.filter (λ sp, visible sp && is_bold sp) sps.
Proof.
  unfold scan_spans.
  induction sps as [|sp sps IH] using rev_ind; [done|].
  rewrite foldl_app, List.filter_app, fmap_app. cbn [foldl List.filter].
  destruct (foldl _ _ sps) as [bold_lines inside]. cbn [fst] in IH.
  unfold span_step, visible, nonblank.
  destruct (nonempty (strip (sp_text sp))); cbn [negb andb fst].
  2: { by rewrite app_nil_r. }
  destruct (hits_section _ _).
  { cbn [fst]. by apply sublist_inserts_r. }
  destruct (if hits_stop _ _ then false else inside); cbn [andb].
  2: { cbn [fst]. by apply sublist_inserts_r. }
  destruct (is_bold sp); cbn [fst fmap list_fmap].
  - by apply sublist_app.
  - by rewrite app_nil_r.
Qed.

(** X4.  Unless it is the fallback message alone, the result is made of trimmed
    texts of bold spans of the file, in reading order and none used twice;
    no entry is empty or has white space at either end. *)
Theorem bold_lines_in_reading_order doc section_name stop_words :
  let result := extract_bold_lines_from_section doc section_name stop_words in
  result = [no_bold_lines section_name]
  ∨ (result `sublist_of`
       (λ sp, strip (sp_text sp))
         <$> List.filter (λ sp, visible sp && is_bold sp) (all_spans doc))
    ∧ Forall (λ t, t ≠ [] ∧ strip t = t) result.
Proof.
  cbn zeta.
  destruct (extract_bold_lines_cases doc section_name stop_words)
    as [[_ ->]|[_ ->]]; [right|by left].
  pose proof (scan_spans_sublist section_name stop_words (all_spans doc)) as Hsub.
  split; [done|].
  apply Forall_forall. intros t Ht.
  apply (elem_of_sublist _ _ _ Ht) in Hsub.
  apply list_elem_of_fmap in Hsub as (sp & -> & Hsp).
  apply list_elem_of_In, filter_In in Hsp as [_ [Hv _]%andb_prop].
  split.
  - by apply nonempty_true.
  - apply strip_by_idemp.
Qed.

End MoreBoldLines.

(** ** Greedy runs *)

Section Greedy.
Context {U : Unicode}.

Lemma take_take_while {A} (p : A → bool) (s : list A) :
  take (length (take_while p s)) s = take_while p s.
Proof.
  induction s as [|c s IH]; [done|]. cbn. destruct (p c); [|done].
  cbn. by rewrite IH.
Qed.

Lemma take_while_agree {A} (p q : A → bool) (s : list A) :
  (∀ c, p c = q c) → take_while p s = take_while q s.
Proof.
  intros H. induction s as [|c s IH]; [done|]. cbn. by rewrite H, IH.
Qed.

Lemma drop_while_agree {A} (p q : A → bool) (s : list A) :
  (∀ c, p c = q c) → drop_while p s = drop_while q s.
Proof.
  intros H. induction s as [|c s IH]; [done|]. cbn. by rewrite H, IH.
Qed.

(** What a greedy [+] or [*] gives when the rest of the pattern matches
    wherever it is tried: the longest run. *)
Lemma greedy_total ok lo prev pos rest caps (k : cont) :
  (∀ p n s c, is_Some (k p n s c)) →
  rep_match ok true lo None prev pos rest caps k
  = if (lo <=? length (take_while ok rest))%nat
    then k (prev_of prev (take_while ok rest))
           (pos + length (take_while ok rest))%nat (drop_while ok rest) caps
    else None.
Proof.
  intros Hk. revert lo prev pos.
  induction rest as [|c rest IH]; intros lo prev pos.
  - rewrite greedy_nil. cbn. rewrite Nat.add_0_r. by destruct lo.
  - rewrite greedy_cons. cbn zeta. cbn [take_while drop_while].
    destruct (ok c) eqn:Hc.
    + rewrite IH, prev_of_cons. cbn [length]. rewrite <- Nat.add_succ_comm.
      destruct lo as [|lo]; [|done]. cbn [pred Nat.leb].
      destruct (Hk (prev_of (Some c) (take_while ok rest))
                  (S pos + length (take_while ok rest))%nat
                  (drop_while ok rest) caps) as [x ->].
      done.
    + cbn. rewrite Nat.add_0_r. by destruct lo.
Qed.

(** What it gives when the rest of the pattern cannot start with a
    character of the run: the longest run or nothing. *)
Lemma greedy_maximal ok lo prev pos rest caps (k : cont) :
  (∀ p n c0 s c, ok c0 = true → k p n (c0 :: s) c = None) →
  rep_match ok true lo None prev pos rest caps k
  = if (lo <=? length (take_while ok rest))%nat
    then k (prev_of prev (take_while ok rest))
           (pos + length (take_while ok rest))%nat (drop_while ok rest) caps
    else None.
Proof.
  intros Hk. revert lo prev pos.
  induction rest as [|c rest IH]; intros lo prev pos.
  - rewrite greedy_nil. cbn. rewrite Nat.add_0_r. by destruct lo.
  - rewrite greedy_cons. cbn zeta. cbn [take_while drop_while].
    destruct (ok c) eqn:Hc.
    + rewrite IH, prev_of_cons. cbn [length]. rewrite <- Nat.add_succ_comm.
      destruct lo as [|lo]; [|done]. cbn [pred Nat.leb].
      destruct (k _ _ _ _); [done|]. cbn. by apply Hk.
    + cbn. rewrite Nat.add_0_r. by destruct lo.
Qed.

Lemma name_set c :
  cset_mem false (CIn false [IRange 65 90; IRange 97 122; ILit 32]) c = name_char c.
Proof.
  unfold name_char, ascii_letter. cbn.
  by destruct (between 65 90 c), (between 97 122 c), (c =? 32).
Qed.

Lemma language_set c :
  cset_mem false (CIn false [IRange 65 90; IRange 97 122; ILit 44; ILit 32]) c
  = language_char c.
Proof.
  unfold language_char, ascii_letter. cbn.
  by destruct (between 65 90 c), (between 97 122 c), (c =? 44), (c =? 32).
Qed.

Lemma email_set c :
  cset_mem false (CIn false [IWord; ILit 46; ILit 45]) c = email_char c.
Proof.
  unfold email_char. cbn. by destruct (is_word c), (c =? 46), (c =? 45).
Qed.

Lemma email_char_not_at c : email_char c = true → (c =? 64) = false.
Proof. destruct (N.eqb_spec c 64) as [->|]; [|done]. vm_compute. done. Qed.

End Greedy.

(** ** extract_name *)

Section Name.
Context {U : Unicode}.

Lemma compile_name_regex : re_compile (raw "^[A-Za-z ]+") = Returns name_regex.
Proof. reflexivity. Qed.

Lemma name_here text :
  match_here false name_regex None 0 text
  = match take_while name_char text with
    | [] => None
    | run => Some (Match 0 run ∅)
    end.
Proof.
  unfold match_here, name_regex. cbn [seq_of_list foldr rmatch at_holds Nat.eqb].
  rewrite greedy_total by (intros; by eexists).
  rewrite (take_while_agree _ _ _ name_set).
  pose proof (take_take_while name_char text) as Htake.
  destruct (take_while name_char text) as [|c run]; [done|].
  cbn [length Nat.leb]. unfold accept.
  replace (0 + S (length run) - 0)%nat with (length (c :: run)) by (cbn; lia).
  by rewrite Htake.
Qed.

(** X8.  The name is the longest run of ASCII letters and spaces at the very
    start of the text, trimmed; "Not found" is what is returned when the
    text does not start with such a character.  So the name ends at the
    first character that is neither, be it a line break, a dot or an
    apostrophe; a text that starts with spaces and then something else
    gives the empty name; and what is returned is always made of those
    characters. *)
Theorem name_is_leading_run (text : str) :
  ∃ r, extract_name text = Returns r
    ∧ r = match take_while name_char text with
          | [] => not_found
          | run => strip run
          end
    ∧ forallb name_char r = true
    ∧ (fails name_char (head text) → r = not_found).
Proof.
  eexists. split; [|split; [reflexivity|split]].
  - unfold extract_name, re_match. rewrite compile_name_regex.
    cbn [mbind outcome_bind]. rewrite name_here.
    by destruct (take_while name_char text).
  - pose proof (take_while_all name_char text) as Hall.
    destruct (take_while name_char text) as [|c run]; [done|].
    destruct (strip_by_spec is_space (c :: run)) as (pre & post & Heq & _).
    rewrite Heq, !forallb_app in Hall.
    by apply andb_prop in Hall as [_ [? _]%andb_prop].
  - intros Hhead. destruct text as [|c text]; [done|].
    cbn in *. by rewrite Hhead.
Qed.

End Name.


(** ** extract_email *)

Section Email.
Context {U : Unicode}.

Lemma compile_email_regex :
  re_compile (raw "[\w\.-]+@[\w\.-]+") = Returns email_regex.
Proof. reflexivity. Qed.

Lemma email_here_eq prev pos rest :
  match_here false email_regex prev pos rest
  = match take_while email_char rest, drop_while email_char rest with
    | (_ :: _) as loc, c :: s =>
        if c =? 64 then
          match take_while email_char s with
          | (_ :: _) as dom => Some (Match pos (loc ++ 64 :: dom) ∅)
          | [] => None
          end
        else None
    | _, _ => None
    end.
Proof.
  unfold match_here, email_regex. cbn [seq_of_list foldr rmatch lit].
  rewrite greedy_maximal.
  2: { intros p n c0 s c Hc. rewrite email_set in Hc.
       apply email_char_not_at in Hc. cbn. by rewrite Hc. }
  rewrite (take_while_agree _ _ _ email_set), (drop_while_agree _ _ _ email_set).
  pose proof (take_drop_while email_char rest) as Hrest.
  destruct (take_while email_char rest) as [|a loc]; [done|].
  cbn [length Nat.leb].
  destruct (drop_while email_char rest) as [|c s]; [done|].
  cbn [cset_mem]. destruct (N.eqb_spec c 64) as [->|]; [|done].
  rewrite greedy_total by (intros; by eexists).
  rewrite (take_while_agree _ _ _ email_set).
  pose proof (take_drop_while email_char s) as Hs.
  destruct (take_while email_char s) as [|b dom]; [done|].
  cbn [length Nat.leb]. unfold accept. do 2 f_equal.
  rewrite <- Hrest, <- Hs.
  replace (S (pos + S (length loc)) + S (length dom) - pos)%nat
    with (length ((a :: loc) ++ 64 :: b :: dom)) by (rewrite length_app; cbn; lia).
  change ((a :: loc) ++ 64 :: (b :: dom) ++ drop_while email_char s)
    with ((a :: loc) ++ (64 :: b :: dom) ++ drop_while email_char s).
  by rewrite app_assoc, take_app_length.
Qed.
Lemma at_not_email_char : email_char 64 = false.
Proof.
  destruct (email_char 64) eqn:E; [|done]. by apply email_char_not_at in E.
Qed.

Lemma email_here prev pos rest m :
  match_here false email_regex prev pos rest = Some m →
  ∃ loc dom post,
    rest = loc ++ 64 :: dom ++ post ∧ address loc dom
    ∧ fails email_char (head post) ∧ m = Match pos (loc ++ 64 :: dom) ∅.
Proof.
  rewrite email_here_eq.
  pose proof (take_drop_while email_char rest) as Hrest.
  pose proof (take_while_all email_char rest) as Hloc.
  destruct (take_while email_char rest) as [|a loc]; [done|].
  destruct (drop_while email_char rest) as [|c s]; [done|].
  destruct (N.eqb_spec c 64) as [->|]; [|done].
  pose proof (take_drop_while email_char s) as Hs.
  pose proof (take_while_all email_char s) as Hdom.
  pose proof (drop_while_head email_char s) as Hpost.
  destruct (take_while email_char s) as [|b dom]; [done|].
  intros [= <-]. exists (a :: loc), (b :: dom), (drop_while email_char s).
  split; [by rewrite Hs|]. by repeat split.
Qed.

Lemma email_here_some prev pos loc dom post :
  address loc dom →
  is_Some (match_here false email_regex prev pos (loc ++ 64 :: dom ++ post)).
Proof.
  intros (Hloc & Hdom & Hl & Hd). rewrite email_here_eq.
  rewrite take_while_app_stop by (done || exact at_not_email_char).
  rewrite drop_while_app_all by done. cbn [drop_while].
  rewrite at_not_email_char.
  destruct loc as [|a loc]; [done|].
  destruct dom as [|b dom]; [done|].
  cbn in Hd. apply andb_prop in Hd as [Hb _].
  cbn. rewrite Hb. by eexists.
Qed.

(** X9.  The address is found around the first at sign that has a character of
    the set [[\w.-]] on each side: it is the longest run of the set before
    that sign, the sign, and the longest run after it, and no address of
    the text starts further left.  "Not found" is returned exactly when
    the text has no such at sign, and so whenever it has no at sign. *)
Theorem email_around_first_at (text : str) :
  ∃ r, extract_email text = Returns r
    ∧ ((r = not_found
        ∧ ∀ pre loc dom post,
            text = pre ++ loc ++ 64 :: dom ++ post → ¬ address loc dom)
       ∨ ∃ pre loc dom post,
           text = pre ++ loc ++ 64 :: dom ++ post
           ∧ r = loc ++ 64 :: dom
           ∧ address loc dom
           ∧ fails email_char (last pre) ∧ fails email_char (head post)
           ∧ ∀ pre' loc' dom' post',
               text = pre' ++ loc' ++ 64 :: dom' ++ post' →
               address loc' dom' → (length pre ≤ length pre')%nat)
    ∧ (64 ∉ text → r = not_found).
Proof.
  unfold extract_email, re_search. rewrite compile_email_regex.
  cbn [mbind outcome_bind].
  pose proof (search_from_first false email_regex None 0 text) as Hs.
  destruct (search_from false email_regex None 0 text) as [m|].
  - destruct Hs as (pre & rest & -> & Hhere & Hfirst).
    apply email_here in Hhere as (loc & dom & post & -> & Haddr & Hpost & ->).
    assert (Hleft : ∀ pre' loc' dom' post',
               pre ++ loc ++ 64 :: dom ++ post = pre' ++ loc' ++ 64 :: dom' ++ post' →
               address loc' dom' → (length pre ≤ length pre')%nat).
    { intros pre' loc' dom' post' Heq Haddr'.
      destruct (decide (length pre ≤ length pre')%nat) as [|Hlt]; [done|].
      destruct (email_here_some (prev_of None pre') (0 + length pre')
                  loc' dom' post' Haddr') as [m Hm].
      rewrite (Hfirst pre' _ Heq) in Hm; [done|lia]. }
    eexists. split; [reflexivity|]. cbn [m_text]. split.
    + right. exists pre, loc, dom, post. split; [done|]. split; [done|].
      split; [done|]. split; [|done].
      destruct (last pre) as [c|] eqn:Hlast; [|done]. cbn.
      apply last_Some in Hlast as [pre0 ->].
      destruct (email_char c) eqn:Hc; [exfalso|done].
      specialize (Hleft pre0 (c :: loc) dom post).
      rewrite length_app in Hleft. cbn in Hleft.
      destruct Haddr as (? & ? & ? & ?).
      enough (S (length pre0) ≤ length pre0)%nat by lia.
      rewrite <- Nat.add_1_r. apply Hleft.
      * by rewrite <- app_assoc.
      * repeat split; [done|done| |done]. cbn. by rewrite Hc.
    + intros Hat. exfalso. apply Hat.
      rewrite !elem_of_app, elem_of_cons. auto.
  - eexists. split; [reflexivity|]. split; [|done].
    left. split; [done|]. intros pre loc dom post Heq Haddr.
    specialize (Hs pre _ Heq).
    destruct (email_here_some (prev_of None pre) (0 + length pre) loc dom post Haddr)
      as [m Hm].
    congruence.
Qed.

End Email.


(** ** extract_location *)

Section Location.
Context {U : Unicode}.

Lemma compile_location_regex :
  re_compile (raw "\bRajahmundry.*") = Returns location_regex.
Proof. vm_compute. reflexivity. Qed.

Lemma prev_of_none pre : prev_of None pre = last pre.
Proof. unfold prev_of. by destruct (last pre). Qed.

Lemma location_here prev pos rest :
  match_here false location_regex prev pos rest
  = if startswith town rest && negb (word_at prev)
    then Some (Match pos
                 (town ++ take_while not_newline (drop (length town) rest)) ∅)
    else None.
Proof.
  unfold match_here, location_regex.
  change (seq_of_list (RAt AtBoundary :: ?rs))
    with (RSeq (RAt AtBoundary) (seq_of_list rs)).
  cbn [rmatch at_holds]. rewrite rmatch_lits.
  destruct (startswith town rest) eqn:Hstart.
  2: { by destruct (xorb _ _). }
  apply startswith_app in Hstart.
  assert (Hhead : word_at (head rest) = true).
  { rewrite Hstart. vm_compute. done. }
  rewrite Hhead, xorb_true_r. cbn [andb].
  destruct (word_at prev); cbn [negb]; [done|].
  cbn [seq_of_list foldr rmatch].
  rewrite greedy_total by (intros; by eexists).
  cbn [Nat.leb]. unfold accept. do 2 f_equal.
  rewrite (take_while_agree _ not_newline) by done.
  rewrite Hstart at 2.
  rewrite <- (take_drop_while not_newline (drop (length town) rest)) at 2.
  replace (pos + length town
           + length (take_while not_newline (drop (length town) rest)) - pos)%nat
    with (length (town ++ take_while not_newline (drop (length town) rest)))
    by (rewrite length_app; lia).
  by rewrite app_assoc, take_app_length.
Qed.

(** X10.  The location starts at the first occurrence of the town's name that
    has no word character right before it and runs to the end of that
    line, trimmed; "Not found" is returned exactly when the text has no
    such occurrence, and so whenever the name is not in the text. *)
Theorem location_to_end_of_line (text : str) :
  ∃ r, extract_location text = Returns r
    ∧ ((r = not_found
        ∧ ∀ pre post, text = pre ++ town ++ post → word_at (last pre) = true)
       ∨ ∃ pre post,
           text = pre ++ town ++ post
           ∧ word_at (last pre) = false
           ∧ r = strip (town ++ take_while not_newline post)
           ∧ ∀ pre' post', text = pre' ++ town ++ post' →
               word_at (last pre') = false → (length pre ≤ length pre')%nat)
    ∧ (occurs town text = false → r = not_found).
Proof.
  unfold extract_location, re_search. rewrite compile_location_regex.
  cbn [mbind outcome_bind].
  pose proof (search_from_first false location_regex None 0 text) as Hs.
  destruct (search_from false location_regex None 0 text) as [m|].
  - destruct Hs as (pre & rest & -> & Hhere & Hfirst).
    rewrite location_here, prev_of_none in Hhere.
    destruct (startswith town rest) eqn:Hstart; [|done].
    apply startswith_app in Hstart.
    destruct (word_at (last pre)) eqn:Hprev; [done|].
    injection Hhere as <-. cbn [group m_text attr mbind outcome_bind].
    eexists. split; [reflexivity|]. split.
    + right. exists pre, (drop (length town) rest).
      split; [by rewrite <- Hstart|]. split; [done|]. split; [done|].
      intros pre' post' Heq Hprev'.
      destruct (decide (length pre ≤ length pre')%nat) as [|Hlt]; [done|].
      specialize (Hfirst pre' _ Heq). rewrite location_here, prev_of_none in Hfirst.
      rewrite startswith_here, Hprev' in Hfirst. cbn in Hfirst.
      discriminate Hfirst. lia.
    + intros Hocc. exfalso.
      assert (occurs town (pre ++ rest) = true); [|congruence].
      apply occurs_split. exists pre, (drop (length town) rest).
      by rewrite <- Hstart.
  - eexists. split; [reflexivity|]. split; [|done].
    left. split; [done|]. intros pre post Heq.
    specialize (Hs pre _ Heq). rewrite location_here, prev_of_none in Hs.
    rewrite startswith_here in Hs. by destruct (word_at (last pre)).
Qed.

End Location.

(** ** extract_languages *)

Section Languages.
Context {U : Unicode}.

Lemma languages_regex_eq :
  languages_regex
  = seq_of_list
      ((lit <$> languages_heading) ++
       [RSub (Some 1%nat) (seq_of_list
          [RRep true 1 None
             (CIn false [IRange 65 90; IRange 97 122; ILit 44; ILit 32])])]).
Proof. reflexivity. Qed.

Lemma languages_here prev pos rest :
  let run := take_while language_char (drop (length languages_heading) rest) in
  match match_here false languages_regex prev pos rest with
  | Some m =>
      startswith languages_heading rest = true ∧ run ≠ []
      ∧ group m 1 = Some run
  | None => startswith languages_heading rest = false ∨ run = []
  end.
Proof.
  rewrite languages_regex_eq. unfold match_here. rewrite rmatch_lits.
  destruct (startswith languages_heading rest); [|by left].
  cbn [seq_of_list foldr rmatch].
  rewrite greedy_total by (intros; by eexists).
  rewrite (take_while_agree _ _ _ language_set).
  set (s := drop (length languages_heading) rest).
  pose proof (take_take_while language_char s) as Htake.
  destruct (take_while language_char s) as [|c run] eqn:Hrun.
  { cbn. by right. }
  cbn [length Nat.leb]. unfold accept. cbn zeta.
  split; [done|]. split; [done|].
  unfold group. cbn [m_groups]. rewrite lookup_insert_eq. f_equal.
  rewrite <- Htake. f_equal. cbn [length]. lia.
Qed.

(** X11.  The languages are read after the first line break that follows the
    word LANGUAGES and is followed by a letter, a comma or a space: the
    longest run of such characters there, trimmed and cut at its commas.
    The pieces, joined by commas again, give that trimmed run back, so no
    piece has been trimmed on its own.  The one entry "Not found" is
    returned when there is no such place, and so when the heading with its
    line break is not in the text; the list is never empty. *)
Theorem languages_line_split (text : str) :
  ∃ langs, extract_languages text = Returns langs
    ∧ langs ≠ []
    ∧ ((langs = [not_found]
        ∧ ∀ pre post, text = pre ++ languages_heading ++ post →
            take_while language_char post = [])
       ∨ ∃ pre post,
           text = pre ++ languages_heading ++ post
           ∧ take_while language_char post ≠ []
           ∧ langs = split_on 44 (strip (take_while language_char post))
           ∧ join [44] langs = strip (take_while language_char post)
           ∧ ∀ pre' post', text = pre' ++ languages_heading ++ post' →
               take_while language_char post' ≠ [] →
               (length pre ≤ length pre')%nat)
    ∧ (occurs languages_heading text = false → langs = [not_found]).
Proof.
  unfold extract_languages, re_search. rewrite compile_languages_regex.
  cbn [mbind outcome_bind].
  pose proof (search_from_first false languages_regex None 0 text) as Hs.
  destruct (search_from false languages_regex None 0 text) as [m|].
  - destruct Hs as (pre & rest & -> & Hhere & Hfirst).
    pose proof (languages_here (prev_of None pre) (0 + length pre) rest) as Hm.
    cbn zeta in Hm. rewrite Hhere in Hm. destruct Hm as (Hstart & Hrun & ->).
    apply startswith_app in Hstart.
    cbn [attr mbind outcome_bind].
    eexists. split; [reflexivity|]. split; [apply split_on_nonempty|]. split.
    + right. exists pre, (drop (length languages_heading) rest).
      split; [by rewrite <- Hstart|]. split; [done|]. split; [done|].
      split; [apply join_split|].
      intros pre' post' Heq Hrun'.
      destruct (decide (length pre ≤ length pre')%nat) as [|Hlt]; [done|].
      specialize (Hfirst pre' _ Heq).
      pose proof (languages_here (prev_of None pre') (0 + length pre')
                    (languages_heading ++ post')) as Hm.
      cbn zeta in Hm. rewrite Hfirst in Hm by lia.
      rewrite startswith_here, drop_app_length in Hm. by destruct Hm.
    + intros Hocc. exfalso.
      assert (occurs languages_heading (pre ++ rest) = true); [|congruence].
      apply occurs_split. exists pre, (drop (length languages_heading) rest).
      by rewrite <- Hstart.
  - eexists. split; [reflexivity|]. split; [done|]. split; [|done].
    left. split; [done|]. intros pre post Heq.
    specialize (Hs pre _ Heq).
    pose proof (languages_here (prev_of None pre) (0 + length pre)
                  (languages_heading ++ post)) as Hm.
    cbn zeta in Hm. rewrite Hs in Hm.
    rewrite startswith_here, drop_app_length in Hm. by destruct Hm.
Qed.

End Languages.


(** ** extract_section as a window *)

Section Window.
Context {U : Unicode}.
Implicit Types (text section : str) (stop_sections stops : list str).

Lemma window_eq stops s :
  window stops s
  = if terminator stops s then Some []
    else match s with
         | [] => None
         | c :: s' => cons c <$> window stops s'
         end.
Proof. by destruct s. Qed.

Lemma window_first stops content tail :
  terminator stops tail = true →
  (∀ content' tail', content ++ tail = content' ++ tail' →
     (length content' < length content)%nat → terminator stops tail' = false) →
  window stops (content ++ tail) = Some content.
Proof.
  intros Hterm. induction content as [|c content IH]; intros Hmin.
  - rewrite window_eq. cbn [app]. by rewrite Hterm.
  - rewrite window_eq. rewrite (Hmin [] ((c :: content) ++ tail)) by (done || cbn; lia).
    cbn [app]. rewrite IH; [done|].
    intros content' tail' Heq Hlen. apply (Hmin (c :: content') tail').
    + cbn. by rewrite Heq.
    + cbn. lia.
Qed.

Lemma window_none stops s :
  (∀ content tail, s = content ++ tail → terminator stops tail = false) →
  window stops s = None.
Proof.
  induction s as [|c s IH]; intros Hno.
  - rewrite window_eq. by rewrite (Hno [] []).
  - rewrite window_eq. rewrite (Hno [] (c :: s)) by done.
    rewrite IH; [done|]. intros content tail ->. by apply (Hno (c :: content) tail).
Qed.

(** [extract_section] without the pattern, the empty stop list read as one
    empty stop heading. *)
Lemma extract_section_window text section stop_sections :
  plain_heading section → Forall plain_heading stop_sections →
  extract_section text section stop_sections
  = Returns
      match section_window (upper section)
              (branches (upper <$> stop_sections)) text with
      | Some content => strip content
      | None => not_found
      end.
Proof.
  intros Hsec Hstops. rewrite extract_section_eq by done.
  pose proof (section_search (upper section) (upper <$> stop_sections) text) as Hs.
  unfold section_window.
  destruct (search_from _ _ _ _ _) as [m|].
  - destruct Hs as (pre & content & tail & -> & -> & Hterm & Hmin & ->).
    cbn [attr mbind outcome_bind option_bind].
    rewrite (app_assoc pre), <- length_app, drop_app_length.
    by rewrite window_first.
  - destruct (find (upper section) text) as [i|] eqn:Hfind; [|done].
    cbn [mbind option_bind].
    apply find_split in Hfind as (pre & post & -> & <- & Hstart).
    apply startswith_app in Hstart. rewrite Hstart.
    rewrite (app_assoc pre), <- length_app, drop_app_length.
    rewrite window_none; [done|].
    intros content tail Heq. apply (Hs pre content tail).
    by rewrite Hstart, Heq.
Qed.

(** With the empty string for only stop heading every newline is a
    terminator. *)
Lemma window_newline s :
  window [[]] s
  = if occurs [10] s then Some (take_while not_newline s) else None.
Proof.
  induction s as [|c s IH]; [done|].
  rewrite window_eq, IH. cbn [terminator existsb startswith orb andb occurs].
  unfold not_newline at 2. cbn [take_while]. rewrite (N.eqb_sym 10 c).
  rewrite !andb_true_r.
  destruct (c =? 10); cbn [negb orb]; [done|].
  by destruct (occurs [10] s).
Qed.

(** X1.  [extract_section] without the pattern, for a heading and at least
    one stop heading, all free of special characters: find the first
    occurrence of the upper-cased heading; from the character after it,
    take the text up to the first newline that is followed by an
    upper-cased stop heading, by the end of the text or by one last
    newline; trim it.  "Not found" is returned when the heading does not
    occur or no such newline follows it. *)
Theorem section_is_window text section stop_sections :
  plain_heading section → Forall plain_heading stop_sections →
  stop_sections ≠ [] →
  extract_section text section stop_sections
  = Returns
      match section_window (upper section) (upper <$> stop_sections) text with
      | Some content => strip content
      | None => not_found
      end.
Proof.
  intros Hsec Hstops Hne. rewrite extract_section_window by done.
  by destruct stop_sections.
Qed.

(** X2.  For a heading and stop headings free of special characters,
    [extract_section] returns, and what it returns has no white space at
    either end. *)
Theorem section_result_trimmed text section stop_sections :
  plain_heading section → Forall plain_heading stop_sections →
  ∃ r, extract_section text section stop_sections = Returns r ∧ strip r = r.
Proof.
  intros Hsec Hstops. rewrite extract_section_window by done.
  eexists. split; [reflexivity|].
  destruct (section_window _ _ _).
  - apply strip_by_idemp.
  - vm_compute. reflexivity.
Qed.

(** X3.  With no stop heading, and a heading free of special characters,
    the section does not run to the end of the text: it is what lies
    between the first occurrence of the upper-cased heading and the first
    newline after it, trimmed.  "Not found" is returned when the heading
    does not occur or no newline comes after it. *)
Theorem empty_stop_list_ends_at_newline text section :
  plain_heading section →
  extract_section text section []
  = Returns
      match find (upper section) text with
      | Some i =>
          let rest := drop (i + length (upper section)) text in
          if occurs [10] rest then strip (take_while not_newline rest)
          else not_found
      | None => not_found
      end.
Proof.
  intros Hsec.
  rewrite (extract_section_window text section [] Hsec (List.Forall_nil _)).
  unfold section_window. cbn [fmap list_fmap branches].
  destruct (find (upper section) text) as [i|]; [|done].
  cbn [mbind option_bind]. rewrite window_newline. cbn zeta.
  by destruct (occurs [10] _).
Qed.

End Window.

(** ** extract_certificates, continued *)

Section MoreCertificates.

(** X12.  Every entry is left alone by a second removal of bullet characters,
    and an entry is empty exactly when some non-blank line is made of
    bullet characters only, as a line of dashes is. *)
Theorem empty_certificate_entries (text : str) :
  ∃ certs,
    extract_certificates text = Returns certs
    ∧ Forall (λ c, strip_chars bullets c = c) certs
    ∧ ([] ∈ certs ↔
       ∃ l, l ∈ splitlines text ∧ nonblank l = true
            ∧ forallb (mem bullets) l = true).
Proof.
  eexists. split; [reflexivity|]. split.
  - apply Forall_fmap, Forall_forall. intros l _. apply strip_by_idemp.
  - rewrite list_elem_of_fmap. split.
    + intros (l & Hnil & Hl). apply list_elem_of_In, filter_In in Hl as [Hl Hnb].
      exists l. split; [by apply list_elem_of_In|]. split; [done|].
      by apply strip_by_nil_iff.
    + intros (l & Hl & Hnb & Hall). exists l. split.
      * symmetry. by apply strip_by_nil_iff.
      * apply list_elem_of_In, filter_In. split; [by apply list_elem_of_In|done].
Qed.

End MoreCertificates.

(** ** Education buckets, continued *)

Section MoreEducation.
Context {U : Unicode}.

Lemma bucket_eqb_eq a b : bucket_eqb a b = true ↔ a = b.
Proof. destruct a as [[]|], b as [[]|]; cbn; split; done. Qed.

Lemma select_cons b tag l tagged :
  select b ((tag, l) :: tagged)
  = if bucket_eqb tag b then l :: select b tagged else select b tagged.
Proof. unfold select. cbn. by destruct (bucket_eqb tag b). Qed.

(** The first line of a list has a trigger of that list, unless the list
    was current from the start. *)
Lemma route_head current lines b l :
  head (select (Some b) (route current lines)) = Some l →
  current = Some b ∨ trigger l = Some b.
Proof.
  revert current. induction lines as [|l0 lines IH]; intros current; [done|].
  cbn [route]. cbn zeta. rewrite select_cons.
  destruct (bucket_eqb _ (Some b)) eqn:Heq.
  - apply bucket_eqb_eq in Heq. cbn. intros [= ->].
    destruct (trigger l); [by right|by left].
  - intros [Hcur|Htr]%IH; [|by right].
    rewrite Hcur in Heq. by destruct b.
Qed.

Lemma route_trigger current lines b l :
  l ∈ lines → trigger l = Some b →
  l ∈ select (Some b) (route current lines).
Proof.
  revert current. induction lines as [|l0 lines IH]; intros current.
  - by intros ?%elem_of_nil.
  - intros [->|Hl]%elem_of_cons Htr; cbn [route]; cbn zeta; rewrite select_cons.
    + rewrite Htr. destruct b; cbn; apply list_elem_of_here.
    + destruct (bucket_eqb _ _); [apply list_elem_of_further|]; by apply IH.
Qed.

Lemma select_elem b tagged l : l ∈ select b tagged → l ∈ snd <$> tagged.
Proof.
  unfold select. intros (p & -> & Hp)%list_elem_of_fmap.
  apply list_elem_of_In, filter_In in Hp as [Hp _].
  apply list_elem_of_fmap. exists p. split; [done|by apply list_elem_of_In].
Qed.

(** X14.  Each of the three lists is empty exactly when no line has one of its
    trigger keywords, and a list that is not empty starts with a line that
    has one: a list is opened by its own trigger only. *)
Theorem education_list_opened_by_trigger (edu_text : str) :
  ∃ r, parse_education edu_text = Returns r
    ∧ ∀ b,
        (bucket_of b r ≠ [] ↔
         ∃ l, l ∈ edu_lines edu_text ∧ trigger l = Some b)
        ∧ (∀ l, head (bucket_of b r) = Some l → trigger l = Some b).
Proof.
  eexists. split; [reflexivity|].
  destruct (edu_loop_route (edu_lines edu_text) (Edu [] [] [] None))
    as (Hb & Hi & Ht).
  cbn zeta in *. cbn [e_btech e_inter e_tenth e_current app] in *.
  set (lines := edu_lines edu_text) in *.
  assert (Hof : ∀ b, bucket_of b
            (e_btech (foldl edu_step (Edu [] [] [] None) lines),
             e_inter (foldl edu_step (Edu [] [] [] None) lines),
             e_tenth (foldl edu_step (Edu [] [] [] None) lines))
          = select (Some b) (route None lines)).
  { by intros []; cbn. }
  intros b. rewrite Hof. clear Hof Hb Hi Ht.
  assert (Hhead : ∀ l, head (select (Some b) (route None lines)) = Some l →
                       trigger l = Some b).
  { intros l [|]%route_head; done. }
  split; [split|done].
  - intros Hne. destruct (select (Some b) (route None lines)) as [|l ls] eqn:Hsel; [done|].
    exists l. split; [|by apply Hhead].
    rewrite <- (route_lines None lines). apply (select_elem (Some b)).
    rewrite Hsel. apply list_elem_of_here.
  - intros (l & Hl & Htr) Hnil.
    pose proof (route_trigger None lines b l Hl Htr) as Hin.
    rewrite Hnil in Hin. by apply elem_of_nil in Hin.
Qed.

End MoreEducation.

(** ** The keys of parse_skills *)

Section SkillsKeys.
Context {U : Unicode}.

Lemma skills_step_keys st l st' k :
  skills_inv st → skills_step st l = Returns st' →
  is_Some (st'.1 !! k)
  ↔ is_Some (st.1 !! k) ∨ (strip l = k ∧ letters_and_spaces k = true).
Proof.
  destruct st as [skills current]. intros [Hcur _]. rewrite skills_step_eq.
  cbn zeta. cbn [fst snd] in *.
  destruct (nonempty (strip l)) eqn:Hne; cbn [negb].
  2: { intros [= <-]. cbn. split; [by left|]. intros [?|[<- Hls]]; [done|].
       apply letters_and_spaces_nonempty in Hls. congruence. }
  destruct (letters_and_spaces (strip l)) eqn:Hls.
  { intros [= <-]. cbn [fst]. rewrite lookup_insert_is_Some. split.
    - intros [Heq|[_ ?]]; [right|by left]. split; [done|by rewrite <- Heq].
    - intros [?|[<- _]]; [|by left].
      destruct (decide (strip l = k)); [by left|by right]. }
  assert (Hsame : is_Some (skills !! k)
     ↔ is_Some (skills !! k) ∨ strip l = k ∧ letters_and_spaces k = true).
  { split; [by left|]. intros [?|[<- ?]]; [done|congruence]. }
  destruct current as [cur|]; [|by intros [= <-]].
  destruct (nonempty cur); [|by intros [= <-]].
  destruct (Hcur cur eq_refl) as [old Hold]. unfold getitem. rewrite Hold.
  cbn [mbind outcome_bind]. intros [= <-]. cbn [fst].
  rewrite lookup_insert_is_Some, <- Hsame. split.
  - intros [<-|[_ ?]]; [by eexists|done].
  - intros ?. destruct (decide (cur = k)); [by left|by right].
Qed.

Lemma skills_loop_keys lines st st' k :
  skills_inv st → for_each skills_step st lines = Returns st' →
  is_Some (st'.1 !! k)
  ↔ is_Some (st.1 !! k)
    ∨ ∃ l, l ∈ lines ∧ strip l = k ∧ letters_and_spaces k = true.
Proof.
  revert st. induction lines as [|l lines IH]; intros st Hinv.
  - cbn. intros [= <-]. split; [by left|].
    intros [?|(l & []%elem_of_nil & _)]. done.
  - cbn [for_each].
    destruct (skills_step_inv st l Hinv) as (st1 & Hstep & Hinv1).
    rewrite Hstep. cbn [mbind outcome_bind]. intros Hrest.
    rewrite (IH st1 Hinv1 Hrest), (skills_step_keys st l st1 k Hinv Hstep).
    split.
    + intros [[?|[? ?]]|(l' & ? & ? & ?)]; [by left|right..].
      * exists l. split; [apply list_elem_of_here|done].
      * exists l'. split; [by apply list_elem_of_further|done].
    + intros [?|(l' & [->|?]%elem_of_cons & ? & ?)].
      * by left; left.
      * by left; right.
      * right. by exists l'.
Qed.

(** X13.  The categories of the result are the trimmed lines that are made of
    ASCII letters and spaces only, and nothing else: every such line is a
    key, whatever follows it, and no other text is. *)
Theorem skills_keys_are_category_lines (skills_text : str) :
  ∃ skills,
    parse_skills skills_text = Returns skills
    ∧ ∀ k, is_Some (skills !! k)
           ↔ ∃ l, l ∈ splitlines skills_text ∧ strip l = k
                  ∧ letters_and_spaces k = true.
Proof.
  unfold parse_skills.
  destruct (skills_loop_inv (splitlines skills_text) (∅, None) skills_inv_init)
    as (st' & Hloop & _).
  rewrite Hloop. cbn [mbind outcome_bind]. eexists. split; [reflexivity|].
  intros k. rewrite (skills_loop_keys _ _ _ k skills_inv_init Hloop).
  cbn [fst]. rewrite lookup_empty. split; [|by right].
  intros [[? [=]]|?]. done.
Qed.

End SkillsKeys.


(** ** main *)

Section Main.
Context {U : Unicode}.

Lemma extract_name_returns text : ∃ v, extract_name text = Returns v.
Proof.
  unfold extract_name, re_match. rewrite compile_name_regex.
  cbn [mbind outcome_bind]. destruct (match_here _ _ _ _ _); by eexists.
Qed.

Lemma extract_email_returns text : ∃ v, extract_email text = Returns v.
Proof.
  unfold extract_email, re_search. rewrite compile_email_regex.
  cbn [mbind outcome_bind]. destruct (search_from _ _ _ _ _); by eexists.
Qed.

Lemma extract_phone_returns text : ∃ v, extract_phone text = Returns v.
Proof.
  unfold extract_phone, re_search. rewrite compile_phone_regex.
  cbn [mbind outcome_bind]. destruct (search_from _ _ _ _ _); by eexists.
Qed.

Lemma extract_location_returns text : ∃ v, extract_location text = Returns v.
Proof.
  unfold extract_location, re_search. rewrite compile_location_regex.
  cbn [mbind outcome_bind]. destruct (search_from _ _ _ _ _); by eexists.
Qed.

Lemma extract_languages_returns text :
  ∃ v, extract_languages text = Returns v ∧ v ≠ [].
Proof.
  unfold extract_languages, re_search. rewrite compile_languages_regex.
  cbn [mbind outcome_bind].
  pose proof (search_from_first false languages_regex None 0 text) as Hs.
  destruct (search_from _ _ _ _ _) as [m|]; [|by eexists].
  destruct Hs as (pre & rest & _ & [g Hg]%languages_group & _).
  rewrite Hg. cbn [attr mbind outcome_bind]. eexists. split; [done|].
  apply split_on_nonempty.
Qed.

Lemma parse_skills_returns text : ∃ v, parse_skills text = Returns v.
Proof.
  unfold parse_skills.
  destruct (skills_loop_inv (splitlines text) (∅, None) skills_inv_init)
    as (st' & -> & _).
  by eexists.
Qed.

(** A section read under one of the headings of [main]. *)
Lemma extract_section_returns text section stop_sections :
  plain_heading section → Forall plain_heading stop_sections →
  ∃ r, extract_section text section stop_sections = Returns r
    ∧ (occurs (upper section) text = false → r = not_found).
Proof.
  intros Hsec Hstops. rewrite extract_section_eq by done.
  pose proof (section_search (upper section) (upper <$> stop_sections) text) as Hs.
  destruct (search_from _ _ _ _ _) as [m|]; [|by eexists].
  destruct Hs as (pre & content & tail & -> & Hfind & _ & _ & ->).
  cbn [attr mbind outcome_bind]. eexists. split; [done|].
  intros Hocc%find_none. congruence.
Qed.

Lemma parse_skills_not_found :
  parse_skills not_found = Returns {[ not_found := [] ]}.
Proof.
  unfold parse_skills.
  change (splitlines not_found) with [not_found].
  cbn [for_each]. rewrite skills_step_eq. cbn zeta.
  change (strip not_found) with not_found.
  change (nonempty not_found) with true.
  change (letters_and_spaces not_found) with true.
  cbn. by rewrite insert_empty.
Qed.

(** What [main] does with an upload that opens. *)
Lemma main_runs (doc : list pdf_page) :
  let raw_text := extract_text_from_pdf doc in
  ∃ name email phone location profile education skills_text cert_text
    certificates languages skills edu,
    extract_section raw_text (raw "PROFILE") [raw "EDUCATION"] = Returns profile
    ∧ extract_section raw_text (raw "EDUCATION") [raw "EXPERIENCE"]
      = Returns education
    ∧ extract_section raw_text (raw "SKILLS") [raw "PROJECTS"]
      = Returns skills_text
    ∧ extract_section raw_text (raw "CERTIFICATES") [raw "LANGUAGES"]
      = Returns cert_text
    ∧ extract_certificates cert_text = Returns certificates
    ∧ extract_languages raw_text = Returns languages
    ∧ parse_skills skills_text = Returns skills
    ∧ parse_education education = Returns edu
    ∧ main (Readable doc)
      = Returns
          (Parsed name email phone location profile certificates languages
             skills
             (extract_bold_lines_from_section (blocks_of doc)
                (raw "PROJECTS")
                [raw "CERTIFICATES"; raw "SKILLS"; raw "LANGUAGES";
                 raw "DECLARATION"])
             (extract_bold_lines_from_section (blocks_of doc)
                (raw "EXPERIENCE")
                [raw "SKILLS"; raw "PROJECTS"; raw "CERTIFICATES";
                 raw "LANGUAGES"; raw "DECLARATION"])
             edu.1.1 edu.1.2 edu.2).
Proof.
  intros raw_text. unfold main. cbn [fitz_open mbind outcome_bind].
  fold raw_text.
  assert (Hsec : ∀ h s, plain_heading h → plain_heading s →
            ∃ r, extract_section raw_text h [s] = Returns r).
  { intros h s Hh Hs.
    destruct (extract_section_returns raw_text h [s] Hh) as (r & Hr & _).
    - by repeat constructor.
    - by exists r. }
  destruct (extract_name_returns raw_text) as [name Hname].
  destruct (extract_email_returns raw_text) as [email Hemail].
  destruct (extract_phone_returns raw_text) as [phone Hphone].
  destruct (extract_location_returns raw_text) as [location Hlocation].
  destruct (Hsec (raw "PROFILE") (raw "EDUCATION")) as [profile Hprofile];
    [vm_compute; reflexivity..|].
  destruct (Hsec (raw "EDUCATION") (raw "EXPERIENCE")) as [education Heducation];
    [vm_compute; reflexivity..|].
  destruct (Hsec (raw "SKILLS") (raw "PROJECTS")) as [skills_text Hskills_text];
    [vm_compute; reflexivity..|].
  destruct (Hsec (raw "CERTIFICATES") (raw "LANGUAGES")) as [cert_text Hcert_text];
    [vm_compute; reflexivity..|].
  destruct (extract_languages_returns raw_text) as (languages & Hlanguages & _).
  destruct (parse_skills_returns skills_text) as [skills Hskills].
  exists name, email, phone, location, profile, education, skills_text, cert_text.
  eexists _, languages, skills, _.
  repeat (split; [done|]).
  rewrite Hname, Hemail, Hphone, Hlocation, Hprofile, Heducation, Hskills_text,
    Hcert_text.
  cbn [mbind outcome_bind extract_certificates].
  rewrite Hlanguages. cbn [mbind outcome_bind].
  rewrite Hskills. reflexivity.
Qed.


(** X17.  A heading that is missing from the text is not kept apart from one
    that is there: the words "Not found" that [extract_section] returns
    are parsed as if they were the section.  With no CERTIFICATES in the
    text the certificates are the one entry "Not found"; with no SKILLS the
    skills are the one category "Not found", without tokens; with no
    EDUCATION the three education lists are empty; with no PROFILE the
    profile is "Not found". *)
Theorem missing_sections_flow_on (doc : list pdf_page) :
  let raw_text := extract_text_from_pdf doc in
  ∃ res, main (Readable doc) = Returns res
    ∧ (occurs (raw "CERTIFICATES") raw_text = false →
       p_certificates res = [not_found])
    ∧ (occurs (raw "SKILLS") raw_text = false →
       p_skills res = {[ not_found := [] ]})
    ∧ (occurs (raw "EDUCATION") raw_text = false →
       p_btech res = [] ∧ p_inter res = [] ∧ p_tenth res = [])
    ∧ (occurs (raw "PROFILE") raw_text = false → p_profile res = not_found).
Proof.
  intros raw_text.
  destruct (main_runs doc)
    as (name & email & phone & location & profile & education & skills_text
        & cert_text & certificates & languages & skills & edu
        & Hprofile & Heducation & Hskills_text & Hcert_text & Hcertificates
        & _ & Hskills & Hedu & ->).
  fold raw_text in Hprofile, Heducation, Hskills_text, Hcert_text.
  assert (Hmiss : ∀ h s r,
            plain_heading h → plain_heading s → upper h = h →
            extract_section raw_text h [s] = Returns r →
            occurs h raw_text = false → r = not_found).
  { intros h s r Hh Hs Hup Hr Hocc.
    destruct (extract_section_returns raw_text h [s]) as (r' & Hr' & Hnf);
      [done|by repeat constructor|].
    rewrite Hr in Hr'. injection Hr' as <-. apply Hnf. by rewrite Hup. }
  eexists. split; [reflexivity|].
  cbn [p_certificates p_skills p_btech p_inter p_tenth p_profile].
  split; [|split; [|split]].
  - intros Hocc.
    rewrite (Hmiss (raw "CERTIFICATES") (raw "LANGUAGES") _ ltac:(by vm_compute)
               ltac:(by vm_compute) ltac:(by vm_compute) Hcert_text Hocc) in Hcertificates.
    vm_compute in Hcertificates. by injection Hcertificates as <-.
  - intros Hocc.
    rewrite (Hmiss (raw "SKILLS") (raw "PROJECTS") _ ltac:(by vm_compute)
               ltac:(by vm_compute) ltac:(by vm_compute) Hskills_text Hocc),
      parse_skills_not_found in Hskills.
    by injection Hskills as <-.
  - intros Hocc.
    rewrite (Hmiss (raw "EDUCATION") (raw "EXPERIENCE") _ ltac:(by vm_compute)
               ltac:(by vm_compute) ltac:(by vm_compute) Heducation Hocc) in Hedu.
    vm_compute in Hedu. by injection Hedu as <-.
  - intros Hocc.
    apply (Hmiss (raw "PROFILE") (raw "EDUCATION") _ ltac:(by vm_compute)
               ltac:(by vm_compute) ltac:(by vm_compute) Hprofile Hocc).
Qed.

End Main.

(** ** Where a section closes *)

Section StopWords.
Context {U : Unicode}.
Implicit Types (doc : document) (sp : span) (section_name : str)
  (stop_words : list str).



End StopWords.

(** ** Where the tokens of parse_skills come from *)

Section SkillsTokens.
Context {U : Unicode}.

Lemma skills_step_tokens all st l st' :
  skills_inv st → tokens_from all st.1 → l ∈ all →
  skills_step st l = Returns st' → tokens_from all st'.1.
Proof.
  destruct st as [skills current]. intros [Hcur _] Hfrom Hl.
  rewrite skills_step_eq. cbn zeta. cbn [fst snd] in *.
  destruct (nonempty (strip l)); cbn [negb]; [|by intros [= <-]].
  destruct (letters_and_spaces (strip l)) eqn:Hls.
  { intros [= <-]. cbn [fst]. by apply map_Forall_insert_2. }
  destruct current as [cur|]; [|by intros [= <-]].
  destruct (nonempty cur); [|by intros [= <-]].
  destruct (Hcur cur eq_refl) as [old Hold]. unfold getitem. rewrite Hold.
  cbn [mbind outcome_bind]. intros [= <-]. cbn [fst].
  apply map_Forall_insert_2; [|done]. apply Forall_app. split.
  - exact (Hfrom cur old Hold).
  - apply Forall_forall. intros t Ht. by exists l.
Qed.

Lemma skills_loop_tokens all lines st st' :
  skills_inv st → tokens_from all st.1 → (∀ l, l ∈ lines → l ∈ all) →
  for_each skills_step st lines = Returns st' → tokens_from all st'.1.
Proof.
  revert st. induction lines as [|l lines IH]; intros st Hinv Hfrom Hsub.
  - cbn. by intros [= <-].
  - cbn [for_each].
    destruct (skills_step_inv st l Hinv) as (st1 & Hstep & Hinv1).
    rewrite Hstep. cbn [mbind outcome_bind]. apply IH; [done| |].
    + apply (skills_step_tokens all st l st1); [done..| |done].
      apply Hsub, list_elem_of_here.
    + intros l' Hl'. by apply Hsub, list_elem_of_further.
Qed.

(** X19.  No token is made up: every token of every category is a
    trimmed, non-blank piece, between commas, of a line of the text that is
    not itself a category line. *)
Theorem skills_tokens_come_from_lines (skills_text : str) :
  ∃ skills,
    parse_skills skills_text = Returns skills
    ∧ ∀ k toks t, skills !! k = Some toks → t ∈ toks →
        ∃ l, l ∈ splitlines skills_text
             ∧ letters_and_spaces (strip l) = false
             ∧ t ∈ items_of (strip l).
Proof.
  unfold parse_skills.
  destruct (skills_loop_inv (splitlines skills_text) (∅, None) skills_inv_init)
    as (st' & Hloop & _).
  rewrite Hloop. cbn [mbind outcome_bind]. eexists. split; [reflexivity|].
  intros k toks t Hk Ht.
  pose proof (skills_loop_tokens (splitlines skills_text) (splitlines skills_text)
                (∅, None) st' skills_inv_init) as Hfrom.
  cbn [fst] in Hfrom. specialize (Hfrom (map_Forall_empty _) (λ _ H, H) Hloop).
  specialize (Hfrom k toks Hk). rewrite Forall_forall in Hfrom. by apply Hfrom.
Qed.

End SkillsTokens.

(** ** The order of the education lists *)

Section EducationOrder.
Context {U : Unicode}.

Lemma select_sublist b tagged : select b tagged `sublist_of` snd <$> tagged.
Proof.
  unfold select. induction tagged as [|[tag l] tagged IH]; [done|].
  cbn. destruct (bucket_eqb tag b); cbn.
  - by apply sublist_skip.
  - by apply sublist_cons.
Qed.

(** X20.  Each of the three lists keeps the order of the text: it is a
    subsequence of the cleaned lines, and the cleaned lines are the
    non-blank lines of the text, in order, without the bullet characters at
    their ends. *)
Theorem education_lists_keep_order (edu_text : str) :
  ∃ r, parse_education edu_text = Returns r
    ∧ (∀ b, bucket_of b r `sublist_of` edu_lines edu_text)
    ∧ Forall2 (stripped_of (mem bullets))
        (List.filter nonblank (splitlines edu_text)) (edu_lines edu_text).
Proof.
  eexists. split; [reflexivity|]. split.
  - destruct (edu_loop_route (edu_lines edu_text) (Edu [] [] [] None))
      as (Hb & Hi & Ht).
    cbn zeta in *. cbn [e_btech e_inter e_tenth e_current app] in *.
    intros b. rewrite <- (route_lines None (edu_lines edu_text)) at 4.
    destruct b; cbn [bucket_of fst snd].
    + rewrite Hb. apply select_sublist.
    + rewrite Hi. apply select_sublist.
    + rewrite Ht. apply select_sublist.
  - apply Forall2_fmap_r, Forall_Forall2_diag, Forall_forall.
    intros l _. apply strip_by_spec.
Qed.

End EducationOrder.

(** ** The properties on sample inputs *)

Section Samples.
Local Existing Instance ascii_only.

Example projects_scenario :
  extract_bold_lines_from_section projects_doc (raw "Projects")
    [raw "CERTIFICATES"; raw "SKILLS"; raw "LANGUAGES"; raw "DECLARATION"]
  = [raw "Resume Parser"].
Proof. vm_compute. reflexivity. Qed.



(** With no stop heading the section ends at the first newline; and a
    text that no newline ends gives the sentinel. *)
Lemma section_stops_short :
  extract_section (esc "PROFILE Builds things.\nShips them.\n") (raw "PROFILE") []
  = Returns (raw "Builds things.")
  ∧ extract_section (esc "PROFILE\nBuilds things.") (raw "PROFILE") [raw "EDUCATION"]
    = Returns not_found.
Proof. split; vm_compute; reflexivity. Qed.

Lemma section_runs_to_end_of_text_witness :
  plain_heading (raw "PROFILE") ∧ Forall plain_heading [raw "EDUCATION"]
  ∧ [raw "EDUCATION"] ≠ []
  ∧ resume_text = [] ++ upper (raw "PROFILE") ++ esc "\nBuilds things.\nShips them." ++ [10]
  ∧ find (upper (raw "PROFILE")) resume_text = Some (length (@nil N))
  ∧ stop_line (upper <$> [raw "EDUCATION"]) (esc "\nBuilds things.\nShips them." ++ [10]) = false
  ∧ extract_section resume_text (raw "PROFILE") [raw "EDUCATION"]
    = Returns (strip (esc "\nBuilds things.\nShips them." ++ [10])).
Proof.
  assert (Hh : plain_heading (raw "PROFILE")) by (vm_compute; reflexivity).
  assert (Hs : Forall plain_heading [raw "EDUCATION"]) by (repeat constructor).
  assert (Hne : [raw "EDUCATION"] ≠ []) by discriminate.
  assert (Ht : resume_text
    = [] ++ upper (raw "PROFILE") ++ esc "\nBuilds things.\nShips them." ++ [10])
    by (vm_compute; reflexivity).
  assert (Hf : find (upper (raw "PROFILE")) resume_text = Some (length (@nil N)))
    by (vm_compute; reflexivity).
  assert (Hl : stop_line (upper <$> [raw "EDUCATION"])
                 (esc "\nBuilds things.\nShips them." ++ [10]) = false)
    by (vm_compute; reflexivity).
  repeat (split; [assumption|]).
  exact (section_runs_to_end_of_text resume_text (raw "PROFILE") [raw "EDUCATION"]
           [] _ Hh Hs Hne Ht Hf Hl).
Defined.

(** The text of the only span contains the heading, and the list returned
    contains that text.  And a span that contains a stop word in another
    case than the list has it is returned as content. *)
Lemma marker_text_in_result :
  (fallback_span ∈ all_spans fallback_doc
   ∧ hits_section (raw "PROJECTS") (strip (sp_text fallback_span)) = true
   ∧ strip (sp_text fallback_span)
     ∈ extract_bold_lines_from_section fallback_doc (raw "PROJECTS") [raw "SKILLS"])
  ∧ (let sp := Span (raw "SKILLS") (raw "Arial-BoldMT") (Some 20%Z) in
     sp ∈ all_spans projects_doc
     ∧ occurs (upper (raw "skills")) (upper (strip (sp_text sp))) = true
     ∧ strip (sp_text sp)
       ∈ extract_bold_lines_from_section projects_doc (raw "projects") [raw "skills"]).
Proof.
  split; [split; [|split]|split; [|split]].
  - vm_compute. constructor.
  - vm_compute. reflexivity.
  - vm_compute. constructor.
  - vm_compute. do 3 apply list_elem_of_further. apply list_elem_of_here.
  - vm_compute. reflexivity.
  - vm_compute. apply list_elem_of_further, list_elem_of_here.
Qed.

Lemma marker_spans_never_appended_witness :
  let sp := Span (raw "SKILLS") (raw "Arial-BoldMT") (Some 20%Z) in
  let stops := [raw "CERTIFICATES"; raw "SKILLS"] in
  sp ∈ all_spans projects_doc
  ∧ Forall (λ stop, upper stop = stop) stops
  ∧ names_stop stops (strip (sp_text sp)) = true
  ∧ (strip (sp_text sp) ∉ (scan_document (raw "Projects") stops projects_doc).1)
  ∧ ∀ st, span_step (raw "Projects") stops st sp = (st.1, false).
Proof.
  intros sp stops.
  assert (Hin : sp ∈ all_spans projects_doc).
  { vm_compute. do 3 apply list_elem_of_further. apply list_elem_of_here. }
  assert (Hupper : Forall (λ stop, upper stop = stop) stops)
    by (repeat constructor).
  assert (Hstop : names_stop stops (strip (sp_text sp)) = true)
    by (vm_compute; reflexivity).
  split; [exact Hin|]. split; [exact Hupper|]. split; [exact Hstop|].
  destruct (marker_spans_never_appended projects_doc (raw "Projects") stops sp
              Hin Hupper (or_intror Hstop)) as (Hnot & _ & Hstep).
  split; [exact Hnot|]. apply Hstep. vm_compute. reflexivity.
Defined.

Lemma no_bold_gives_fallback_witness :
  extract_bold_lines_from_section plain_projects_doc (raw "Projects") [raw "SKILLS"]
  = [raw "No bold lines found in PROJECTS"].
Proof.
  rewrite (proj1 (no_bold_gives_fallback plain_projects_doc (raw "Projects")
                    [raw "SKILLS"])); [vm_compute; reflexivity|].
  intros pre sp post Heq. vm_compute in Heq.
  destruct pre as [|a [|b [|c pre]]]; simplify_eq; vm_compute; try done.
  by destruct pre.
Defined.

(** A heading that is not a pattern, and a heading that is one with an
    alternative outside group 1. *)
Lemma section_heading_raises :
  extract_section (raw "x") (raw "(") [] = Raises re_error
  ∧ extract_section (raw "A") (raw "a|b") [] = Raises AttributeError.
Proof. split; vm_compute; reflexivity. Qed.

Lemma field_extractors_return_witness :
  plain_heading (raw "Skills") ∧ Forall plain_heading [raw "Projects"]
  ∧ ∃ v, extract_section resume_text (raw "Skills") [raw "Projects"] = Returns v
      ∧ (re_search (section_pattern (raw "Skills") [raw "Projects"]) resume_text true
         = Returns None → v = not_found).
Proof.
  assert (Hh : plain_heading (raw "Skills")) by (vm_compute; reflexivity).
  assert (Hs : Forall plain_heading [raw "Projects"]) by (repeat constructor).
  split; [exact Hh|]. split; [exact Hs|].
  destruct (field_extractors_return resume_text) as (_ & _ & _ & _ & _ & _ & _ & _ & H).
  exact (H (raw "Skills") [raw "Projects"] Hh Hs).
Defined.

Lemma repeated_category_keeps_last_witness :
  ∃ skills,
    parse_skills skills_sample = Returns skills
    ∧ skills !! strip (raw "Languages") = Some [raw "C++"; raw "Go"].
Proof.
  destruct (repeated_category_keeps_last skills_sample
              [raw "Languages"; raw "Python"; raw "Tools"; raw "Git, Docker"]
              (raw "Languages") [raw "C++, Go"] [raw "Databases"; raw "MySQL, Redis"])
    as [_ (skills & Hp & Hl)].
  - vm_compute. reflexivity.
  - vm_compute. reflexivity.
  - repeat constructor.
  - intros l [= <-]. vm_compute. reflexivity.
  - repeat constructor; vm_compute; discriminate.
  - exists skills. split; [exact Hp|]. rewrite Hl. vm_compute. reflexivity.
Defined.

Lemma phone_first_standalone_run_witness :
  Forall (λ r, (10 < length r)%nat) (digit_runs (raw "Call 98765432101 or 123456789012"))
  ∧ extract_phone (raw "Call 98765432101 or 123456789012") = Returns not_found.
Proof.
  assert (Hruns : Forall (λ r, (10 < length r)%nat)
                    (digit_runs (raw "Call 98765432101 or 123456789012"))).
  { vm_compute. repeat constructor. }
  split; [exact Hruns|].
  destruct phone_first_standalone_run as (_ & _ & Hlong & _).
  exact (Hlong _ Hruns).
Defined.

Lemma text_is_pages_in_order_witness :
  first_page ∈ two_pages
  ∧ occurs (raw "EDUCATION") (pg_text first_page) = true
  ∧ occurs (raw "EDUCATION") (extract_text_from_pdf two_pages) = true.
Proof.
  assert (Hin : first_page ∈ two_pages) by apply list_elem_of_here.
  assert (Hocc : occurs (raw "EDUCATION") (pg_text first_page) = true)
    by (vm_compute; reflexivity).
  split; [exact Hin|]. split; [exact Hocc|].
  exact (proj1 (proj2 (proj2 (text_is_pages_in_order two_pages [])))
           first_page (raw "EDUCATION") Hin Hocc).
Defined.

(** A heading cut in two by a page break is whole in the text. *)
Example heading_across_pages :
  extract_section
    (extract_text_from_pdf
       [PdfPage (esc "Jane Doe\nPRO") []; PdfPage (esc "FILE\nBuilds things.\n") []])
    (raw "PROFILE") [raw "EDUCATION"]
  = Returns (raw "Builds things.").
Proof. vm_compute. reflexivity. Qed.

Lemma bold_lines_ignore_layout_witness :
  extract_bold_lines_from_section layout_one (raw "PROJECTS") [raw "SKILLS"]
  = extract_bold_lines_from_section layout_two (raw "PROJECTS") [raw "SKILLS"].
Proof.
  apply bold_lines_ignore_layout. vm_compute. reflexivity.
Defined.

Lemma no_heading_span_gives_fallback_witness :
  extract_bold_lines_from_section layout_two (raw "EXPERIENCE") [raw "SKILLS"]
  = [no_bold_lines (raw "EXPERIENCE")].
Proof.
  apply no_heading_span_gives_fallback.
  set (sps := all_spans layout_two). vm_compute in sps. subst sps.
  repeat (constructor; [vm_compute; reflexivity|]). constructor.
Defined.

Lemma name_is_leading_run_witness :
  extract_name (raw "1 Main Street") = Returns not_found.
Proof.
  destruct (name_is_leading_run (raw "1 Main Street")) as (r & Hr & _ & _ & Hnf).
  rewrite Hr. f_equal. apply Hnf. vm_compute. reflexivity.
Defined.

Lemma email_around_first_at_witness :
  extract_email (raw "write to jane at x.org") = Returns not_found.
Proof.
  destruct (email_around_first_at (raw "write to jane at x.org"))
    as (r & Hr & _ & Hnf).
  rewrite Hr. f_equal. apply Hnf.
  apply (bool_decide_unpack _). vm_compute. exact I.
Defined.

Lemma location_to_end_of_line_witness :
  extract_location (raw "Hyderabad, India") = Returns not_found.
Proof.
  destruct (location_to_end_of_line (raw "Hyderabad, India"))
    as (r & Hr & _ & Hnf).
  rewrite Hr. f_equal. apply Hnf. vm_compute. reflexivity.
Defined.

Lemma languages_line_split_witness :
  extract_languages (raw "LANGUAGES: English, Hindi") = Returns [not_found].
Proof.
  destruct (languages_line_split (raw "LANGUAGES: English, Hindi"))
    as (r & Hr & _ & _ & Hnf).
  rewrite Hr. f_equal. apply Hnf. vm_compute. reflexivity.
Defined.

(** What the field patterns take and leave. *)
Example field_examples :
  extract_name (esc "Jane O'Brien\nEngineer") = Returns (raw "Jane O")
  ∧ extract_name (raw "  42 Main Street") = Returns []
  ∧ extract_email (raw "mail: jane.doe@x.org.") = Returns (raw "jane.doe@x.org.")
  ∧ extract_email (raw "a@ @b jane@x") = Returns (raw "jane@x")
  ∧ extract_location (esc "at Rajahmundry, AP \nIndia") = Returns (raw "Rajahmundry, AP")
  ∧ extract_location (raw "NewRajahmundry") = Returns not_found
  ∧ extract_languages (esc "LANGUAGES\nEnglish, Hindi (fluent)\nTelugu")
    = Returns [raw "English"; raw " Hindi"]
  ∧ extract_languages (esc "LANGUAGES\n\nEnglish") = Returns [not_found].
Proof. vm_compute. repeat split. Qed.

Lemma section_is_window_witness :
  let text := esc "Jane\nPROFILE\nBuilds things.\nEDUCATION\nB.Tech CS" in
  plain_heading (raw "Profile") ∧ Forall plain_heading [raw "Education"]
  ∧ [raw "Education"] ≠ []
  ∧ extract_section text (raw "Profile") [raw "Education"]
    = Returns (raw "Builds things.").
Proof.
  intros text.
  assert (Hh : plain_heading (raw "Profile")) by (vm_compute; reflexivity).
  assert (Hs : Forall plain_heading [raw "Education"]) by (repeat constructor).
  assert (Hne : [raw "Education"] ≠ []) by discriminate.
  split; [exact Hh|]. split; [exact Hs|]. split; [exact Hne|].
  rewrite (section_is_window text (raw "Profile") [raw "Education"] Hh Hs Hne).
  vm_compute. reflexivity.
Defined.

Lemma section_result_trimmed_witness :
  plain_heading (raw "Profile") ∧ Forall plain_heading [raw "Education"]
  ∧ ∃ r, extract_section (esc "PROFILE \t Builds things. \n") (raw "Profile")
           [raw "Education"] = Returns r
         ∧ strip r = r.
Proof.
  assert (Hh : plain_heading (raw "Profile")) by (vm_compute; reflexivity).
  assert (Hs : Forall plain_heading [raw "Education"]) by (repeat constructor).
  split; [exact Hh|]. split; [exact Hs|].
  exact (section_result_trimmed (esc "PROFILE \t Builds things. \n")
           (raw "Profile") [raw "Education"] Hh Hs).
Defined.

Lemma education_list_opened_by_trigger_witness :
  trigger (raw "Intermediate") = Some inter.
Proof.
  destruct (education_list_opened_by_trigger
              (esc "XYZ School\nIntermediate\nABC Junior College"))
    as (r & Hr & Hb).
  apply (proj2 (Hb inter)).
  vm_compute in Hr. injection Hr as <-. vm_compute. reflexivity.
Defined.

Lemma missing_sections_flow_on_witness :
  ∃ res, main (Readable two_pages) = Returns res
    ∧ p_certificates res = [not_found]
    ∧ p_skills res = {[ not_found := [] ]}.
Proof.
  destruct (missing_sections_flow_on two_pages) as (res & Hres & Hc & Hs & _).
  exists res. split; [exact Hres|]. split.
  - apply Hc. vm_compute. reflexivity.
  - apply Hs. vm_compute. reflexivity.
Defined.

(** The values [main] renders for the file of two pages. *)
Example main_on_two_pages :
  (λ res, (p_name res, p_email res, p_phone res, p_profile res,
           p_certificates res, p_languages res, p_bold_projects res,
           p_bold_experience res, p_btech res, p_inter res))
    <$> main (Readable two_pages)
  = Returns (raw "Jane Doe", raw "jane@x.org", not_found, raw "Builds things.",
             [not_found], [not_found], [raw "Parser"],
             [raw "No bold lines found in EXPERIENCE"], [raw "B.Tech, XYZ"], []).
Proof. vm_compute. reflexivity. Qed.

Lemma empty_stop_list_ends_at_newline_witness :
  plain_heading (raw "Profile")
  ∧ extract_section (esc "Jane\nPROFILE: engineer \nBuilds things.\n")
      (raw "Profile") [] = Returns (raw ": engineer")
  ∧ extract_section (raw "Jane PROFILE engineer") (raw "Profile") []
    = Returns not_found.
Proof.
  assert (Hh : plain_heading (raw "Profile")) by (vm_compute; reflexivity).
  split; [exact Hh|]. split.
  - rewrite (empty_stop_list_ends_at_newline _ (raw "Profile") Hh).
    vm_compute. reflexivity.
  - rewrite (empty_stop_list_ends_at_newline _ (raw "Profile") Hh).
    vm_compute. reflexivity.
Defined.


Lemma skills_tokens_come_from_lines_witness :
  ∃ l, l ∈ splitlines skills_sample
       ∧ letters_and_spaces (strip l) = false
       ∧ raw "Docker" ∈ items_of (strip l).
Proof.
  destruct (skills_tokens_come_from_lines skills_sample) as (skills & Hp & Hfrom).
  apply (Hfrom (raw "Tools") [raw "Git"; raw "Docker"]).
  - vm_compute in Hp. injection Hp as <-. vm_compute. reflexivity.
  - apply list_elem_of_further, list_elem_of_here.
Defined.

End Samples.
